(** * FB.XFBML: the tag scanner and its completion counter

    A shallow embedding of [src/xfbml/xfbml.js] (connect-js).  The module
    renders XFBML tags: [parse] scans a subtree for every registered tag,
    binds one handler object to each match and counts outstanding renders;
    when the counter drops to zero the caller's callback runs and the
    global ['xfbml.render'] event is fired.

    JavaScript is single threaded.  The code hands closures to its
    collaborators (the handler's [subscribe], [FB.Loader.use],
    [window.setTimeout]); they call them back either before the call
    returns or from a later task.  Both are modelled: what happens inside
    a call is decided by an oracle [Env] that sees the whole world, what
    happens later is an [Action] delivered to the world.

    What is taken for granted about the platform:
    - [count] is a JavaScript number that only ever moves by one from 1;
      it is an integer here;
    - an element is known by its identity [nid], and the property
      [dom._element] is kept in a map from identities to handlers;
    - the collection returned by a tag query is read as it is when the
      loop starts;
    - the page is an HTML document: [getElementsByTagName] puts the name
      it is asked for in lower case before it compares it with an element
      of the HTML namespace;
    - [document.body] exists when [parse] is called, and
      [eval(tagInfo.className)] yields the class once [FB.CLASSES] has it
      or the loader has called back;
    - the caller's callback and the listeners of the global event are
      opaque: calling them is an event of the trace. *)

From Stdlib Require Import ZArith Ascii String Lia Permutation.
From stdpp Require Import base option list gmap strings.

Set Warnings "-register-all".

Local Open Scope string_scope.
Local Open Scope list_scope.
Local Open Scope Z_scope.

Module XFBML.

(** ** Strings *)

(** [s.substr(n)] *)
Definition substr (n : nat) (s : string) : string :=
  String.substring n (String.length s - n) s.

Definition lowerAscii (c : ascii) : ascii :=
  let n := nat_of_ascii c in
  if (Nat.leb 65 n && Nat.leb n 90)%bool then ascii_of_nat (n + 32) else c.

(** [s.toLowerCase()], on ASCII names *)
Fixpoint toLowerCase (s : string) : string :=
  match s with
  | EmptyString => EmptyString
  | String c s' => String (lowerAscii c) (toLowerCase s')
  end.

(** ** The DOM, as far as the scanner looks at it *)

(** An element: [nid] is the identity of the JavaScript object,
    [tagName] the name [getElementsByTagName] compares with. *)
Inductive Node : Type :=
  mkNode { nid : nat; namespaceURI : string; tagName : string;
           childNodes : list Node }.

(** All elements below [n], in document order; [n] itself is not one. *)
Fixpoint descendants (n : Node) : list Node :=
  match n with
  | mkNode _ _ _ ks =>
      (fix below (l : list Node) : list Node :=
         match l with
         | [] => []
         | k :: l' => k :: descendants k ++ below l'
         end) ks
  end.

(** The HTML namespace. *)
Definition xhtml : string := "http://www.w3.org/1999/xhtml".

(** [getElementsByTagName] in an HTML document: the name asked for is
    compared in lower case with an element of the HTML namespace, and as
    it is written with any other element; ["*"] matches any. *)
Definition nameMatches (name : string) (n : Node) : bool :=
  String.eqb name "*" ||
  String.eqb (tagName n)
    (if String.eqb (namespaceURI n) xhtml then toLowerCase name else name).

(** [getElementsByTagNameNS] compares the name as it is written. *)
Definition localNameMatches (name : string) (n : Node) : bool :=
  String.eqb name "*" || String.eqb (tagName n) name.

Definition getElementsByTagName (dom : Node) (name : string) : list Node :=
  List.filter (nameMatches name) (descendants dom).

Definition getElementsByTagNameNS (dom : Node) (ns name : string) : list Node :=
  List.filter
    (fun n => (String.eqb ns "*" || String.eqb (namespaceURI n) ns)
              && localNameMatches name n)
    (descendants dom).

(** [document]: the root of the whole tree, [document.body],
    [document.namespaces] (only Internet Explorer has it) and the answer of
    [FB.Dom.getBrowserType()]. *)
Record Document : Type := {
  documentElement : Node;
  body : Node;
  namespaces : option (list string);
  browserType : string }.

(** [dom.innerHTML = ...] on the element [target] somewhere below [n]. *)
Fixpoint setChildren (target : nat) (ks : list Node) (n : Node) : Node :=
  match n with
  | mkNode i ns t old =>
      if Nat.eqb i target then mkNode i ns t ks
      else mkNode i ns t
             ((fix each (l : list Node) : list Node :=
                 match l with
                 | [] => []
                 | k :: l' => setChildren target ks k :: each l'
                 end) old)
  end.

Definition setInnerHTML (target : nat) (ks : list Node) (d : Document) : Document :=
  {| documentElement := setChildren target ks (documentElement d);
     body := setChildren target ks (body d);
     namespaces := namespaces d;
     browserType := browserType d |}.

(** ** The registry *)

(** A [tagInfo] object; [xmlns] may be missing. *)
Record TagInfo : Type := {
  xmlns : option string;
  localName : string;
  className : string }.

(** [!tagInfo.xmlns]: missing or the empty string. *)
Definition noXmlns (ti : TagInfo) : bool :=
  match xmlns ti with
  | None => true
  | Some s => String.eqb s ""
  end.

(** [if (!tagInfo.xmlns) { tagInfo.xmlns = 'fb'; }] *)
Definition defaultXmlns (ti : TagInfo) : TagInfo :=
  if noXmlns ti
  then {| xmlns := Some "fb"; localName := localName ti; className := className ti |}
  else ti.

Definition xmlnsOf (ti : TagInfo) : string := default "" (xmlns ti).

Definition baseTag (l c : string) : TagInfo :=
  {| xmlns := None; localName := l; className := c |}.

(** The table at the end of the file. *)
Definition base_tagInfos : list TagInfo :=
  [ baseTag "add-to-wishlist" "FB.XFBML.AddToWishList";
    baseTag "comments"        "FB.XFBML.Comments";
    baseTag "fan"             "FB.XFBML.Fan";
    baseTag "like"            "FB.XFBML.Like";
    baseTag "live-stream"     "FB.XFBML.LiveStream";
    baseTag "login-button"    "FB.XFBML.LoginButton";
    baseTag "name"            "FB.XFBML.Name";
    baseTag "profile-pic"     "FB.XFBML.ProfilePic";
    baseTag "serverfbml"      "FB.XFBML.ServerFbml";
    baseTag "share-button"    "FB.XFBML.ShareButton" ].

(** ** The world *)

(** The variables captured by one [onTagDone]: [count] and [cb] of one
    call of [parse].  The callback is named by a number. *)
Record Run : Type := { count : Z; cb : option nat }.

(** One [element.subscribe('render', cb)]: the handler and the [parse]
    call whose [onTagDone] was subscribed. *)
Record Sub : Type := { sub_element : nat; sub_run : nat }.

(** The closure [processor] of [_processElement]: it captures [dom],
    [tagInfo] and [cb]. *)
Record Proc : Type := { proc_dom : nat; proc_tagInfo : TagInfo; proc_run : nat }.

(** A handler object made by [new fn(dom)]. *)
Record Handler : Type := { h_class : string; h_dom : nat }.

(** What the code does, in the order it does it: its calls of the
    collaborators, and, for the bookkeeping, every write of a counter
    ([EvInc], [EvDec]) and every call of a subscribed [onTagDone]
    ([EvRender]).  The run number on an event says which [parse] call it
    belongs to. *)
Inductive Event : Type :=
  | EvInc (r : nat) (c : Z)                  (* count++, new value *)
  | EvDec (r : nat) (c : Z)                  (* count--, new value *)
  | EvCallback (r : nat) (f : nat)           (* cb() *)
  | EvFire (r : nat) (name : string)         (* FB.Event.fire(name) *)
  | EvNew (h : nat) (cls : string) (dom : nat)   (* new fn(dom) *)
  | EvSubscribe (h : nat) (r : nat)          (* element.subscribe('render', cb) *)
  | EvProcess (h : nat)                      (* element.process() *)
  | EvUse (component : string)               (* FB.Loader.use(component, _) *)
  | EvSetTimeout (r : nat) (ms : Z)          (* window.setTimeout(_, ms) *)
  | EvLog (r : nat) (c : Z) (ms : Z)
      (* FB.log(c + ' XFBML tags failed to render in ' + ms + 'ms.') *)
  | EvRender (t : nat) (r : nat).            (* subscription t is called back *)

Record World : Type := {
  _renderTimeout : Z;
  _tagInfos : list TagInfo;
  document : Document;
  _element : gmap nat nat;          (* dom._element, by node *)
  instances : list Handler;
  subscribers : list Sub;
  runs : list Run;
  loading : list (option Proc);     (* FB.Loader's queue *)
  timers : list (option nat);       (* armed timers *)
  trace : list Event }.

Definition with_tagInfos (x : list TagInfo) (w : World) : World :=
  {| _renderTimeout := _renderTimeout w; _tagInfos := x; document := document w;
     _element := _element w; instances := instances w;
     subscribers := subscribers w; runs := runs w; loading := loading w;
     timers := timers w; trace := trace w |}.

Definition with_document (x : Document) (w : World) : World :=
  {| _renderTimeout := _renderTimeout w; _tagInfos := _tagInfos w; document := x;
     _element := _element w; instances := instances w;
     subscribers := subscribers w; runs := runs w; loading := loading w;
     timers := timers w; trace := trace w |}.

Definition with_instance (dom : nat) (x : Handler) (w : World) : World :=
  {| _renderTimeout := _renderTimeout w; _tagInfos := _tagInfos w;
     document := document w;
     _element := <[dom := length (instances w)]> (_element w);
     instances := instances w ++ [x];
     subscribers := subscribers w; runs := runs w; loading := loading w;
     timers := timers w; trace := trace w |}.

Definition with_subscribers (x : list Sub) (w : World) : World :=
  {| _renderTimeout := _renderTimeout w; _tagInfos := _tagInfos w;
     document := document w; _element := _element w; instances := instances w;
     subscribers := x; runs := runs w; loading := loading w;
     timers := timers w; trace := trace w |}.

Definition with_runs (x : list Run) (w : World) : World :=
  {| _renderTimeout := _renderTimeout w; _tagInfos := _tagInfos w;
     document := document w; _element := _element w; instances := instances w;
     subscribers := subscribers w; runs := x; loading := loading w;
     timers := timers w; trace := trace w |}.

Definition with_loading (x : list (option Proc)) (w : World) : World :=
  {| _renderTimeout := _renderTimeout w; _tagInfos := _tagInfos w;
     document := document w; _element := _element w; instances := instances w;
     subscribers := subscribers w; runs := runs w; loading := x;
     timers := timers w; trace := trace w |}.

Definition with_timers (x : list (option nat)) (w : World) : World :=
  {| _renderTimeout := _renderTimeout w; _tagInfos := _tagInfos w;
     document := document w; _element := _element w; instances := instances w;
     subscribers := subscribers w; runs := runs w; loading := loading w;
     timers := x; trace := trace w |}.

Definition emit (e : Event) (w : World) : World :=
  {| _renderTimeout := _renderTimeout w; _tagInfos := _tagInfos w;
     document := document w; _element := _element w; instances := instances w;
     subscribers := subscribers w; runs := runs w; loading := loading w;
     timers := timers w; trace := trace w ++ [e] |}.

(** The last statement of the file: [document.namespaces.item] is a
    function and has no property [fb], so wherever [document.namespaces]
    exists, ['fb'] is added to it. *)
Definition addFbNamespace (d : Document) : Document :=
  {| documentElement := documentElement d; body := body d;
     namespaces := (fun l => l ++ ["fb"]) <$> namespaces d;
     browserType := browserType d |}.

(** The page once the file is loaded: the base table, nothing bound,
    [_renderTimeout: 30000], and the namespace declared. *)
Definition init (d : Document) : World :=
  {| _renderTimeout := 30000; _tagInfos := base_tagInfos;
     document := addFbNamespace d;
     _element := ∅; instances := []; subscribers := []; runs := [];
     loading := []; timers := []; trace := [] |}.

(** ** The collaborators *)

(** What the collaborators do before they return.  [CLASSES w name] is
    [FB.CLASSES[name]]; [use_now w c] says whether [FB.Loader.use(c, f)]
    calls [f] at once; [render_now w h] lists the subscriptions that
    [process()] of handler [h] calls back before it returns;
    [parseMarkup] is the browser's HTML parser. *)
Record Env : Type := {
  CLASSES : World -> string -> bool;
  use_now : World -> string -> bool;
  render_now : World -> nat -> list nat;
  parseMarkup : string -> list Node }.

(** ** The code *)

(** [onTagDone] of the [parse] call [r]. *)
Definition onTagDone (r : nat) (w : World) : World :=
  match runs w !! r with
  | None => w
  | Some run =>
      let c := count run - 1 in
      let w1 := emit (EvDec r c)
                  (with_runs (<[r := {| count := c; cb := cb run |}]> (runs w)) w) in
      if c =? 0 then
        let w2 := match cb run with
                  | Some f => emit (EvCallback r f) w1
                  | None => w1
                  end in
        emit (EvFire r "xfbml.render") w2
      else w1
  end.

(** [count++] in the loop of [parse]. *)
Definition increment (r : nat) (w : World) : World :=
  match runs w !! r with
  | None => w
  | Some run =>
      let c := count run + 1 in
      emit (EvInc r c)
        (with_runs (<[r := {| count := c; cb := cb run |}]> (runs w)) w)
  end.

(** A handler calls the function of subscription [t]. *)
Definition render (t : nat) (w : World) : World :=
  match subscribers w !! t with
  | None => w
  | Some s => onTagDone (sub_run s) (emit (EvRender t (sub_run s)) w)
  end.

(** [element.subscribe('render', cb)] where [cb] is [onTagDone] of [r]. *)
Definition subscribe (h r : nat) (w : World) : World :=
  emit (EvSubscribe h r)
    (with_subscribers (subscribers w ++ [{| sub_element := h; sub_run := r |}]) w).

(** [element.process()] *)
Definition process (env : Env) (h : nat) (w : World) : World :=
  let w1 := emit (EvProcess h) w in
  fold_left (fun w' t => render t w') (render_now env w1 h) w1.

(** The closure [processor]. *)
Definition processor (env : Env) (p : Proc) (w : World) : World :=
  let h := length (instances w) in
  let cls := className (proc_tagInfo p) in
  let w1 := emit (EvNew h cls (proc_dom p))
              (with_instance (proc_dom p) {| h_class := cls; h_dom := proc_dom p |} w) in
  process env h (subscribe h (proc_run p) w1).

(** [FB.Loader.use(component, processor)] *)
Definition Loader_use (env : Env) (component : string) (p : Proc) (w : World) : World :=
  let w1 := emit (EvUse component) w in
  if use_now env w1 component then processor env p w1
  else with_loading (loading w1 ++ [Some p]) w1.

Definition _processElement (env : Env) (dom : Node) (tagInfo : TagInfo) (r : nat)
    (w : World) : World :=
  match _element w !! nid dom with
  | Some element => process env element (subscribe element r w)
  | None =>
      let p := {| proc_dom := nid dom; proc_tagInfo := tagInfo; proc_run := r |} in
      if CLASSES env w (substr 3 (className tagInfo)) then processor env p w
      else Loader_use env (toLowerCase (className tagInfo)) p w
  end.

Definition _getDomElements (d : Document) (dom : Node) (xmlns localName : string)
    : list Node :=
  let fullName := xmlns +:+ ":" +:+ localName in
  if String.eqb (browserType d) "mozilla" then
    getElementsByTagNameNS dom (namespaceURI (body d)) fullName
  else if String.eqb (browserType d) "ie" then
    match namespaces d with
    | Some declared =>
        if existsb (String.eqb xmlns) declared
        then getElementsByTagName dom localName
        else getElementsByTagName dom fullName
    | None => getElementsByTagName dom fullName
    end
  else getElementsByTagName dom fullName.

(** The [for] loop over [xfbmlDoms]. *)
Definition bindAll (env : Env) (tagInfo : TagInfo) (r : nat) (doms : list Node)
    (w : World) : World :=
  fold_left (fun w' d => _processElement env d tagInfo r (increment r w')) doms w.

(** The function given to [FB.forEach], for the entry at index [i]: the
    entry is defaulted in place, in the registry. *)
Definition eachTagInfo (env : Env) (dom : Node) (r : nat) (i : nat) (w : World)
    : World :=
  match _tagInfos w !! i with
  | None => w
  | Some ti =>
      let tagInfo := defaultXmlns ti in
      let w1 := with_tagInfos (<[i := tagInfo]> (_tagInfos w)) w in
      let xfbmlDoms :=
        _getDomElements (document w1) dom (xmlnsOf tagInfo) (localName tagInfo) in
      bindAll env tagInfo r xfbmlDoms w1
  end.

(** [FB.forEach(FB.XFBML._tagInfos, ...)] *)
Definition scan (env : Env) (dom : Node) (r : nat) (w : World) : World :=
  fold_left (fun w' i => eachTagInfo env dom r i w')
    (seq 0 (length (_tagInfos w))) w.

(** [window.setTimeout(function() {...}, FB.XFBML._renderTimeout)] *)
Definition setTimeout (r : nat) (w : World) : World :=
  emit (EvSetTimeout r (_renderTimeout w)) (with_timers (timers w ++ [Some r]) w).

(** [var count = 1, onTagDone = ...]: a new closure. *)
Definition newRun (cb : option nat) (w : World) : World :=
  with_runs (runs w ++ [{| count := 1; cb := cb |}]) w.

(** [dom = dom || document.body] *)
Definition rootOf (dom : option Node) (w : World) : Node :=
  default (body (document w)) dom.

(** [parse] up to the end of the [forEach]. *)
Definition parse_scan (env : Env) (dom : option Node) (cb : option nat) (w : World)
    : World :=
  scan env (rootOf dom w) (length (runs w)) (newRun cb w).

Definition parse (env : Env) (dom : option Node) (cb : option nat) (w : World)
    : World :=
  let r := length (runs w) in
  onTagDone r (setTimeout r (parse_scan env dom cb w)).

(** [set]: [dom.innerHTML = markup; FB.XFBML.parse(dom, cb);] *)
Definition set (env : Env) (dom : Node) (markup : string) (cb : option nat)
    (w : World) : World :=
  let kids := parseMarkup env markup in
  let dom' := setChildren (nid dom) kids dom in
  parse env (Some dom') cb (with_document (setInnerHTML (nid dom) kids (document w)) w).

Definition registerTag (tagInfo : TagInfo) (w : World) : World :=
  with_tagInfos (_tagInfos w ++ [tagInfo]) w.

(** ** Later tasks *)

(** The function given to [setTimeout], when timer [k] fires.  A timer
    fires once. *)
Definition expire (k : nat) (w : World) : World :=
  match timers w !! k with
  | Some (Some r) =>
      let w1 := with_timers (<[k := None]> (timers w)) w in
      match runs w1 !! r with
      | Some run =>
          if count run >? 0
          then emit (EvLog r (count run) (_renderTimeout w1)) w1
          else w1
      | None => w1
      end
  | _ => w
  end.

(** [FB.Loader] calls the [k]-th queued [processor]; it does so once. *)
Definition loaded (env : Env) (k : nat) (w : World) : World :=
  match loading w !! k with
  | Some (Some p) => processor env p (with_loading (<[k := None]> (loading w)) w)
  | _ => w
  end.

(** What can happen to the page: its own calls of the public functions,
    and the collaborators calling back. *)
Inductive Action : Type :=
  | Call_parse (dom : option Node) (cb : option nat)
  | Call_set (dom : Node) (markup : string) (cb : option nat)
  | Call_registerTag (tagInfo : TagInfo)
  | Loaded (k : nat)
  | Render (t : nat)
  | Expire (k : nat).

Definition step (env : Env) (w : World) (a : Action) : World :=
  match a with
  | Call_parse dom cb => parse env dom cb w
  | Call_set dom markup cb => set env dom markup cb w
  | Call_registerTag ti => registerTag ti w
  | Loaded k => loaded env k w
  | Render t => render t w
  | Expire k => expire k w
  end.

Definition exec (env : Env) (w : World) (l : list Action) : World :=
  fold_left (step env) l w.

End XFBML.

Import XFBML.

(** * What is counted *)

(** The counter of run [r]; 0 when there is no such run. *)
Definition cnt (r : nat) (w : World) : Z := from_option count 0 (runs w !! r).

Definition isProcOf (r : nat) (o : option Proc) : bool :=
  match o with Some p => Nat.eqb (proc_run p) r | None => false end.

Definition isSubOf (r : nat) (s : Sub) : bool := Nat.eqb (sub_run s) r.

(** Binds of run [r] that wait in the loader's queue. *)
Definition queued (r : nat) (w : World) : nat :=
  length (List.filter (isProcOf r) (loading w)).

(** Subscriptions made for run [r]. *)
Definition subscribed (r : nat) (w : World) : nat :=
  length (List.filter (isSubOf r) (subscribers w)).

(** Binds issued for run [r]: each one is queued or subscribed. *)
Definition issued (r : nat) (w : World) : Z :=
  Z.of_nat (queued r w) + Z.of_nat (subscribed r w).

Definition renderOf (r : nat) (e : Event) : option nat :=
  match e with
  | EvRender t r' => if Nat.eqb r' r then Some t else None
  | _ => None
  end.

(** The subscriptions of run [r] that were called back, in order and
    with repetitions. *)
Definition rendered (r : nat) (w : World) : list nat := omap (renderOf r) (trace w).

(** Completion signals delivered to run [r]. *)
Definition signals (r : nat) (w : World) : Z := Z.of_nat (length (rendered r w)).

Definition isFire (r : nat) (e : Event) : bool :=
  match e with EvFire r' _ => Nat.eqb r' r | _ => false end.

Definition isCallback (r : nat) (e : Event) : bool :=
  match e with EvCallback r' _ => Nat.eqb r' r | _ => false end.

Definition isZero (r : nat) (e : Event) : bool :=
  match e with EvDec r' c => Nat.eqb r' r && (c =? 0) | _ => false end.

Definition isLog (r : nat) (e : Event) : bool :=
  match e with EvLog r' _ _ => Nat.eqb r' r | _ => false end.

Definition isNewFor (dom : nat) (e : Event) : bool :=
  match e with EvNew _ _ d => Nat.eqb d dom | _ => false end.

Definition occurrences (p : Event -> bool) (w : World) : nat :=
  length (List.filter p (trace w)).

(** How often the global event was fired by run [r]. *)
Definition fires (r : nat) (w : World) : Z := Z.of_nat (occurrences (isFire r) w).

(** The counter plus the signals it has absorbed. *)
Definition credit (r : nat) (w : World) : Z := cnt r w + signals r w.

(** Fires so far, plus one while the counter is still above zero. *)
Definition potential (r : nat) (w : World) : Z :=
  fires r w + (if 0 <? cnt r w then 1 else 0).

(** 1 for the run itself, 0 for any other. *)
Definition ind (r r' : nat) : Z := if Nat.eqb r r' then 1 else 0.

(** ** Well-formed worlds *)

(** The callbacks of the runs, in the order of the calls of [parse]. *)
Definition callbacksOf (w : World) : list (option nat) := map cb (runs w).

Definition provided (r : nat) (w : World) : bool :=
  match callbacksOf w !! r with Some (Some _) => true | _ => false end.

(** Events mention existing runs and subscriptions only, and a callback
    that runs is the one its [parse] call was given. *)
Definition evOK (cbs : list (option nat)) (subs : list Sub) (e : Event) : Prop :=
  match e with
  | EvRender t r => sub_run <$> subs !! t = Some r
  | EvCallback r f => cbs !! r = Some (Some f)
  | EvFire r _ => (r < length cbs)%nat
  | EvDec r _ => (r < length cbs)%nat
  | EvLog r _ _ => (r < length cbs)%nat
  | _ => True
  end.

(** Events that [onTagDone] and the timer do not produce. *)
Definition isPlain (e : Event) : bool :=
  match e with
  | EvDec _ _ | EvFire _ _ | EvCallback _ _ | EvLog _ _ _ | EvRender _ _ => false
  | _ => true
  end.

(** A queued [processor] belongs to an existing run. *)
Definition procOK (n : nat) (o : option Proc) : Prop :=
  from_option (fun p => (proc_run p < n)%nat) True o.

(** An armed timer belongs to an existing run. *)
Definition timerOK (n : nat) (o : option nat) : Prop :=
  from_option (fun r => (r < n)%nat) True o.

Definition isTimerOf (r : nat) (o : option nat) : bool :=
  match o with Some r' => Nat.eqb r' r | None => false end.

(** Timers of run [r] that have not fired yet. *)
Definition armed (r : nat) (w : World) : nat :=
  length (List.filter (isTimerOf r) (timers w)).

(** What holds of every world the page can be in: subscriptions, queued
    closures, timers and events belong to existing runs; the event was
    fired as often as a decrement reached zero, and the callback of a
    run as often as its event if it has one; every run has at most one
    timer, which logs at most once. *)
Record wf (w : World) : Prop := {
  wf_subs : Forall (fun s => (sub_run s < length (runs w))%nat) (subscribers w);
  wf_loading : Forall (procOK (length (runs w))) (loading w);
  wf_timers : Forall (timerOK (length (runs w))) (timers w);
  wf_trace : Forall (evOK (callbacksOf w) (subscribers w)) (trace w);
  wf_zero : forall r, occurrences (isZero r) w = occurrences (isFire r) w;
  wf_called : forall r,
    occurrences (isCallback r) w =
    if provided r w then occurrences (isFire r) w else 0%nat;
  wf_logged : forall r, (armed r w + occurrences (isLog r) w <= 1)%nat }.

(** ** How a world changes *)

(** The trace and the subscriptions only grow at the end; runs are
    never removed and keep their callback. *)
Record Grows (w w' : World) : Prop := {
  grows_trace : trace w `prefix_of` trace w';
  grows_subs : subscribers w `prefix_of` subscribers w';
  grows_runs : callbacksOf w `prefix_of` callbacksOf w' }.

(** The document and the configuration stay as they are; no run is
    created, no timer touched and nothing logged. *)
Record Still (w w' : World) : Prop := {
  still_document : document w' = document w;
  still_timeout : _renderTimeout w' = _renderTimeout w;
  still_timers : timers w' = timers w;
  still_runs : callbacksOf w' = callbacksOf w;
  still_logs : forall r, occurrences (isLog r) w' = occurrences (isLog r) w }.

(** The same, and the registry is not written. *)
Record Frame (w w' : World) : Prop := {
  frame_still : Still w w';
  frame_tagInfos : _tagInfos w' = _tagInfos w }.

(** The change of the three quantities of run [r]. *)
Record Acc (r : nat) (a i f : Z) (w w' : World) : Prop := {
  acc_credit : credit r w' = credit r w + a;
  acc_issued : issued r w' = issued r w + i;
  acc_potential : potential r w' = potential r w + f }.

(** What a step inside the loop over the elements does: it keeps worlds
    well formed, only adds to them, and leaves the registry, the document
    and the timers alone. *)
Record Safe (w w' : World) : Prop := {
  safe_wf : wf w -> wf w';
  safe_grows : Grows w w';
  safe_frame : Frame w w' }.

(** What the scan does: the same, except that it writes the registry. *)
Record Scans (w w' : World) : Prop := {
  scans_wf : wf w -> wf w';
  scans_grows : Grows w w';
  scans_still : Still w w' }.

(** What any call or callback does. *)
Record Steps (w w' : World) : Prop := {
  steps_wf : wf w -> wf w';
  steps_grows : Grows w w' }.

(** The reserved units of run [r]: what the counter holds beyond the
    binds that are still open. *)
Definition phase (r : nat) (w : World) : Z := credit r w - issued r w.

(** What the binds of run [r] do to run [r] itself: [n] increments and
    [n] binds; and when no subscription of [r] is called back twice and
    a unit is reserved, the potential stays: no [count++] found the
    counter at zero. *)
Record Binds (r : nat) (n : Z) (w w' : World) : Prop := {
  binds_credit : credit r w' = credit r w + n;
  binds_issued : issued r w' = issued r w + n;
  binds_potential :
    NoDup (rendered r w') -> 1 <= phase r w -> potential r w' = potential r w }.

(** The elements found for one descriptor. *)
Definition found (d : Document) (dom : Node) (ti : TagInfo) : list Node :=
  _getDomElements d dom (xmlnsOf (defaultXmlns ti)) (localName (defaultXmlns ti)).

(** The elements [parse] finds below [dom], descriptor by descriptor. *)
Definition matches (w : World) (dom : Node) : list Node :=
  flat_map (found (document w) dom) (_tagInfos w).

(** Subscription [t] exists and belongs to run [r]. *)
Definition isTokenOf (r : nat) (subs : list Sub) (t : nat) : bool :=
  from_option (isSubOf r) false (subs !! t).

(** ** The registry over time *)

(** A descriptor and what has become of it: the same names, and the
    same [xmlns] unless it was missing and is now ['fb']. *)
Definition sameDescriptor (ti ti' : TagInfo) : Prop :=
  localName ti' = localName ti /\ className ti' = className ti /\
  (xmlns ti' = xmlns ti \/ (noXmlns ti = true /\ xmlns ti' = Some "fb")).

(** Every entry of [l] is still at its index in [l']. *)
Definition keeps (l l' : list TagInfo) : Prop :=
  forall i ti, l !! i = Some ti -> exists ti', l' !! i = Some ti' /\ sameDescriptor ti ti'.

(** The values the counter of run [r] took, in order. *)
Definition counterOf (r : nat) (e : Event) : option Z :=
  match e with
  | EvInc r' c | EvDec r' c => if Nat.eqb r' r then Some c else None
  | _ => None
  end.

Definition counterValues (r : nat) (w : World) : list Z := omap (counterOf r) (trace w).

(** ** [set]: what becomes of the element *)

(** The element with other children. *)
Definition withChildren (ks : list Node) (n : Node) : Node :=
  mkNode (nid n) (namespaceURI n) (tagName n) ks.

(** The element with identity [i] in the tree of [n], the first in
    document order, [n] itself included. *)
Fixpoint nodeAt (i : nat) (n : Node) : option Node :=
  match n with
  | mkNode j _ _ ks =>
      if Nat.eqb j i then Some n
      else (fix first (l : list Node) : option Node :=
              match l with
              | [] => None
              | k :: l' =>
                  match nodeAt i k with Some x => Some x | None => first l' end
              end) ks
  end.

(** The same among the trees of a list. *)
Fixpoint firstAt (i : nat) (l : list Node) : option Node :=
  match l with
  | [] => None
  | k :: l' => match nodeAt i k with Some x => Some x | None => firstAt i l' end
  end.

(** The events of one [count--]: the new value, and at zero the
    callback, then the global event. *)
Definition doneEvents (r : nat) (run : Run) : list Event :=
  let c := count run - 1 in
  EvDec r c ::
  (if c =? 0
   then from_option (fun f => [EvCallback r f]) [] (cb run) ++ [EvFire r "xfbml.render"]
   else []).


(** * Pages and collaborators to run the code on *)

Definition likeA : Node := mkNode 11 xhtml "fb:like" [].
Definition likeB : Node := mkNode 12 xhtml "fb:like" [].
Definition other : Node := mkNode 13 xhtml "span" [].

(** Two [fb:like] elements and one unrelated element. *)
Definition container : Node := mkNode 10 xhtml "div" [likeA; other; likeB].

Definition bodyNode : Node := mkNode 2 xhtml "body" [container].

Definition page : Document :=
  {| documentElement := mkNode 0 xhtml "html" [mkNode 1 xhtml "head" []; bodyNode];
     body := bodyNode; namespaces := None; browserType := "safari" |}.


(** A page without any XFBML tag. *)
Definition plainPage : Document :=
  {| documentElement := mkNode 0 xhtml "html" [mkNode 2 xhtml "body" [other]];
     body := mkNode 2 xhtml "body" [other];
     namespaces := None; browserType := "safari" |}.

(** The registry with the one descriptor for [fb:like]. *)
Definition likeOnly (d : Document) : World :=
  with_tagInfos [baseTag "like" "FB.XFBML.Like"] (init d).

(** The class is there; handlers render later. *)
Definition laterEnv : Env :=
  {| CLASSES := fun _ _ => true; use_now := fun _ _ => false;
     render_now := fun _ _ => []; parseMarkup := fun _ => [] |}.

(** The class is there; [process()] calls back the subscription just
    made before it returns. *)
Definition atOnceEnv : Env :=
  {| CLASSES := fun _ _ => true; use_now := fun _ _ => false;
     render_now := fun w _ => [pred (length (subscribers w))];
     parseMarkup := fun _ => [] |}.

(** The class has to be loaded first, and the loader answers later. *)
Definition lazyEnv : Env :=
  {| CLASSES := fun _ _ => false; use_now := fun _ _ => false;
     render_now := fun _ _ => []; parseMarkup := fun _ => [] |}.

(** The first handler fires its render event twice inside [process()],
    the others once. *)
Definition twiceEnv : Env :=
  {| CLASSES := fun _ _ => true; use_now := fun _ _ => false;
     render_now := fun w h =>
       if Nat.eqb h 0 then [0%nat; 0%nat] else [pred (length (subscribers w))];
     parseMarkup := fun _ => [] |}.

(** The browser parses the markup of the example of [set] into one
    [fb:name] element. *)
Definition markupEnv : Env :=
  {| CLASSES := fun _ _ => true; use_now := fun _ _ => false;
     render_now := fun _ _ => [];
     parseMarkup := fun _ => [mkNode 20 xhtml "fb:name" []] |}.
(** * Bindings, the scanner and the timer *)

(** The element carries a handler: [dom._element] is set. *)
Definition bound (i : nat) (w : World) : Prop := is_Some (_element w !! i).

(** No handler object is made, no [dom._element] written and the loader
    is not asked for anything. *)
Record Inert (w w' : World) : Prop := {
  inert_instances : instances w' = instances w;
  inert_element : _element w' = _element w;
  inert_loading : loading w' = loading w }.

(** Every [dom._element] is a handler object that was made by
    [new fn(dom)] for that very element. *)
Definition consistent (w : World) : Prop :=
  forall i h, _element w !! i = Some h ->
    exists x, instances w !! h = Some x /\ h_dom x = i.

(** Handler objects are only added, an element that carries a handler
    keeps carrying one, and the bindings stay consistent. *)
Record Bindings (w w' : World) : Prop := {
  bindings_instances : instances w `prefix_of` instances w';
  bindings_bound : forall i, bound i w -> bound i w';
  bindings_consistent : consistent w -> consistent w' }.

(** Element [i] carries the handler [h], and no [processor] closure
    waits for that element in the loader's queue. *)
Definition settled (i h : nat) (w : World) : Prop :=
  _element w !! i = Some h /\
  forall k p, loading w !! k = Some (Some p) -> proc_dom p <> i.

(** The name [_getDomElements] asks the browser for, for a descriptor. *)
Definition queryName (d : Document) (ti : TagInfo) : string :=
  let x := xmlnsOf (defaultXmlns ti) in
  let fullName := x +:+ ":" +:+ localName ti in
  if String.eqb (browserType d) "mozilla" then fullName
  else if String.eqb (browserType d) "ie" then
    match namespaces d with
    | Some declared => if existsb (String.eqb x) declared then localName ti else fullName
    | None => fullName
    end
  else fullName.

(** The name [q] as the browser compares it with the name of element
    [n]: [getElementsByTagNameNS], which only the ['mozilla'] branch
    calls, takes it as it is written. *)
Definition asCompared (d : Document) (n : Node) (q : string) : string :=
  if String.eqb (browserType d) "mozilla" then q
  else if String.eqb (namespaceURI n) xhtml then toLowerCase q else q.

(** A page as Internet Explorer shows it, with the namespace declared in
    the [html] tag: the elements are known by their local names. *)
Definition iePage : Document :=
  {| documentElement :=
       mkNode 0 "" "html" [mkNode 2 "" "body" [mkNode 11 "" "like" []; mkNode 13 "" "span" []]];
     body := mkNode 2 "" "body" [mkNode 11 "" "like" []; mkNode 13 "" "span" []];
     namespaces := Some []; browserType := "ie" |}.

(** * Lemmas *)

(** ** Small facts *)

Lemma ind_same r : ind r r = 1.
Proof. unfold ind. by rewrite Nat.eqb_refl. Qed.

Lemma ind_other r r' : r <> r' -> ind r r' = 0.
Proof. unfold ind. intros H. by apply Nat.eqb_neq in H as ->. Qed.

Lemma Acc_refl r w : Acc r 0 0 0 w w.
Proof. split; lia. Qed.

Lemma Acc_trans r a i f a' i' f' w1 w2 w3 :
  Acc r a i f w1 w2 -> Acc r a' i' f' w2 w3 -> Acc r (a + a') (i + i') (f + f') w1 w3.
Proof. intros [] []. split; lia. Qed.

Lemma Acc_then r a i f w1 w2 w3 :
  Acc r a i f w1 w2 -> Acc r 0 0 0 w2 w3 -> Acc r a i f w1 w3.
Proof. intros [] []. split; lia. Qed.

Lemma Acc_after r a i f w1 w2 w3 :
  Acc r 0 0 0 w1 w2 -> Acc r a i f w2 w3 -> Acc r a i f w1 w3.
Proof. intros [] []. split; lia. Qed.

Lemma Acc_eq r a i f a' i' f' w w' :
  Acc r a i f w w' -> a = a' -> i = i' -> f = f' -> Acc r a' i' f' w w'.
Proof. by intros H -> -> ->. Qed.

#[local] Instance Grows_preorder : PreOrder Grows.
Proof.
  split.
  - intros w. split; reflexivity.
  - intros w1 w2 w3 [] []. split; etrans; eauto.
Qed.

#[local] Instance Still_preorder : PreOrder Still.
Proof.
  split.
  - intros w. by split.
  - intros w1 w2 w3 [] []. split; congruence.
Qed.

#[local] Instance Frame_preorder : PreOrder Frame.
Proof.
  split.
  - intros w. split; reflexivity.
  - intros w1 w2 w3 [] []. split; [etrans; eauto|congruence].
Qed.

#[local] Instance Safe_preorder : PreOrder Safe.
Proof.
  split.
  - intros w. split; [done|reflexivity..].
  - intros w1 w2 w3 [] []. split; [auto|etrans; eauto..].
Qed.

#[local] Instance Scans_preorder : PreOrder Scans.
Proof.
  split.
  - intros w. split; [done|reflexivity..].
  - intros w1 w2 w3 [] []. split; [auto|etrans; eauto..].
Qed.

#[local] Instance Steps_preorder : PreOrder Steps.
Proof.
  split.
  - intros w. split; [done|reflexivity].
  - intros w1 w2 w3 [] []. split; [auto|etrans; eauto].
Qed.

Lemma Safe_Scans w w' : Safe w w' -> Scans w w'.
Proof. intros [? ? []]. by split. Qed.

Lemma Scans_Steps w w' : Scans w w' -> Steps w w'.
Proof. intros []. by split. Qed.

Lemma runs_length w : length (callbacksOf w) = length (runs w).
Proof. apply length_map. Qed.

Lemma Still_length w w' : Still w w' -> length (runs w') = length (runs w).
Proof. intros [_ _ _ H _]. by rewrite <- !runs_length, H. Qed.

Lemma Grows_length w w' : Grows w w' -> (length (runs w) <= length (runs w'))%nat.
Proof. intros [_ _ H]. rewrite <- !runs_length. by apply prefix_length. Qed.

Lemma callbacksOf_lookup w r run :
  runs w !! r = Some run -> callbacksOf w !! r = Some (cb run).
Proof. intros H. unfold callbacksOf. by rewrite list_lookup_fmap, H. Qed.

Lemma callbacksOf_insert w r run c :
  runs w !! r = Some run ->
  callbacksOf (with_runs (<[r := {| count := c; cb := cb run |}]> (runs w)) w) =
  callbacksOf w.
Proof.
  intros H. unfold callbacksOf. simpl.
  change (map cb) with (fmap (M := list) cb).
  rewrite list_fmap_insert. simpl. apply list_insert_id.
  by rewrite list_lookup_fmap, H.
Qed.

Lemma cnt_insert r r' x w run :
  runs w !! r' = Some run ->
  from_option count 0 (<[r' := x]> (runs w) !! r) =
  if Nat.eqb r r' then count x else cnt r w.
Proof.
  intros H. destruct (Nat.eqb_spec r r') as [->|Hne].
  - rewrite list_lookup_insert_eq; [done|]. by eapply lookup_lt_Some.
  - by rewrite list_lookup_insert_ne.
Qed.

Lemma evOK_mono cbs cbs' subs subs' e :
  cbs `prefix_of` cbs' -> subs `prefix_of` subs' ->
  evOK cbs subs e -> evOK cbs' subs' e.
Proof.
  intros [k ->] [k' ->] H. destruct e; simpl in *;
    rewrite ?length_app; try lia; try done.
  - by apply lookup_app_l_Some.
  - destruct (subs !! t) as [s|] eqn:Hs; [|done].
    by rewrite (lookup_app_l_Some _ _ _ _ Hs).
Qed.

Lemma plain_silent e r :
  isPlain e = true ->
  renderOf r e = None /\ isFire r e = false /\ isZero r e = false /\
  isCallback r e = false /\ isLog r e = false.
Proof. destruct e; simpl; intros; try done. Qed.

(** An update that writes none of the fields the quantities of a run
    are read from leaves them alone. *)
Ltac untouched :=
  split;
  unfold credit, signals, rendered, issued, queued, subscribed, potential,
    fires, occurrences, cnt;
  simpl; lia.

Section Accounting.

(** The collaborators are arbitrary throughout. *)
Context (env : Env).

(** ** A world that only got more trace *)

Lemma wf_extend w w' l :
  wf w ->
  subscribers w' = subscribers w -> loading w' = loading w ->
  timers w' = timers w -> callbacksOf w' = callbacksOf w ->
  trace w' = trace w ++ l ->
  Forall (evOK (callbacksOf w) (subscribers w)) l ->
  (forall r, length (List.filter (isZero r) l) = length (List.filter (isFire r) l)) ->
  (forall r, length (List.filter (isCallback r) l) =
             if provided r w then length (List.filter (isFire r) l) else 0%nat) ->
  (forall r, List.filter (isLog r) l = []) ->
  wf w'.
Proof.
  intros [H1 H2 H3 H4 H5 H6 H7] Hs Hl Ht Hc Htr Hok Hz Hcb Hlog.
  assert (Hn : length (runs w') = length (runs w)).
  { by rewrite <- !runs_length, Hc. }
  split; rewrite ?Hs, ?Hl, ?Ht, ?Hn, ?Hc; try done.
  - rewrite Htr. apply Forall_app. by split.
  - intros r. unfold occurrences. rewrite Htr, !List.filter_app, !length_app.
    specialize (H5 r). unfold occurrences in H5. rewrite Hz. lia.
  - intros r. unfold occurrences, provided. rewrite Htr, Hc, !List.filter_app, !length_app.
    specialize (H6 r). specialize (Hcb r). unfold occurrences, provided in *.
    destruct (callbacksOf w !! r) as [[]|]; lia.
  - intros r. unfold occurrences, armed. rewrite Htr, Ht, List.filter_app, Hlog, app_nil_r.
    apply H7.
Qed.

Lemma Still_extend w w' l :
  document w' = document w -> _renderTimeout w' = _renderTimeout w ->
  timers w' = timers w -> callbacksOf w' = callbacksOf w ->
  trace w' = trace w ++ l -> (forall r, List.filter (isLog r) l = []) ->
  Still w w'.
Proof.
  intros Hd Hto Ht Hc Htr Hlog. split; try done.
  intros r. unfold occurrences. by rewrite Htr, List.filter_app, Hlog, app_nil_r.
Qed.

(** ** [onTagDone] *)

Lemma onTagDone_trace r w run :
  runs w !! r = Some run ->
  trace (onTagDone r w) = trace w ++ doneEvents r run.
Proof.
  intros H. unfold onTagDone, doneEvents. rewrite H. simpl.
  destruct (count run - 1 =? 0); simpl.
  - destruct (cb run); simpl; by rewrite <- ?app_assoc.
  - done.
Qed.

Lemma onTagDone_runs r w run :
  runs w !! r = Some run ->
  runs (onTagDone r w) = <[r := {| count := count run - 1; cb := cb run |}]> (runs w).
Proof.
  intros H. unfold onTagDone. rewrite H. simpl.
  destruct (count run - 1 =? 0); simpl; [destruct (cb run)|]; done.
Qed.

Lemma onTagDone_none r w : runs w !! r = None -> onTagDone r w = w.
Proof. intros H. unfold onTagDone. by rewrite H. Qed.

Lemma onTagDone_fields r w :
  subscribers (onTagDone r w) = subscribers w /\
  loading (onTagDone r w) = loading w /\
  timers (onTagDone r w) = timers w /\
  _element (onTagDone r w) = _element w /\
  instances (onTagDone r w) = instances w /\
  _tagInfos (onTagDone r w) = _tagInfos w /\
  document (onTagDone r w) = document w /\
  _renderTimeout (onTagDone r w) = _renderTimeout w /\
  callbacksOf (onTagDone r w) = callbacksOf w.
Proof.
  destruct (runs w !! r) as [run|] eqn:H; [|by rewrite onTagDone_none].
  pose proof (callbacksOf_insert _ _ _ (count run - 1) H) as Hc.
  unfold callbacksOf in *. unfold onTagDone. rewrite H. simpl in *.
  destruct (count run - 1 =? 0); simpl; [destruct (cb run)|]; done.
Qed.

Lemma doneEvents_rendered r r' run : omap (renderOf r) (doneEvents r' run) = [].
Proof.
  unfold doneEvents. simpl. destruct (count run - 1 =? 0); [|done].
  destruct (cb run); done.
Qed.

Lemma doneEvents_fires r r' run :
  length (List.filter (isFire r) (doneEvents r' run)) =
  if Nat.eqb r' r && (count run - 1 =? 0) then 1%nat else 0%nat.
Proof.
  unfold doneEvents. simpl. destruct (count run - 1 =? 0); [|by rewrite andb_false_r].
  rewrite andb_true_r. destruct (cb run); simpl; destruct (Nat.eqb r' r); done.
Qed.

Lemma doneEvents_zeros r r' run :
  length (List.filter (isZero r) (doneEvents r' run)) =
  if Nat.eqb r' r && (count run - 1 =? 0) then 1%nat else 0%nat.
Proof.
  unfold doneEvents. simpl. destruct (count run - 1 =? 0); [|by rewrite andb_false_r].
  rewrite andb_true_r. destruct (cb run); simpl; destruct (Nat.eqb r' r); done.
Qed.

Lemma doneEvents_callbacks r r' run :
  length (List.filter (isCallback r) (doneEvents r' run)) =
  if Nat.eqb r' r && (count run - 1 =? 0) && bool_decide (is_Some (cb run))
  then 1%nat else 0%nat.
Proof.
  unfold doneEvents. simpl. destruct (count run - 1 =? 0); [|by rewrite andb_false_r].
  rewrite andb_true_r. destruct (cb run); simpl; destruct (Nat.eqb r' r); done.
Qed.

Lemma doneEvents_logs r r' run : List.filter (isLog r) (doneEvents r' run) = [].
Proof.
  unfold doneEvents. simpl. destruct (count run - 1 =? 0); [|done].
  destruct (cb run); done.
Qed.

Lemma doneEvents_ok r run cbs subs :
  cbs !! r = Some (cb run) -> Forall (evOK cbs subs) (doneEvents r run).
Proof.
  intros H. assert (r < length cbs)%nat by by eapply lookup_lt_Some.
  unfold doneEvents. constructor; [done|].
  destruct (count run - 1 =? 0); [|constructor].
  destruct (cb run); simpl; repeat constructor; done.
Qed.

Lemma onTagDone_safe r w : Safe w (onTagDone r w).
Proof.
  destruct (onTagDone_fields r w) as (Hs&Hl&Ht&_&_&Hti&Hd&Hto&Hc).
  destruct (runs w !! r) as [run|] eqn:H; [|rewrite onTagDone_none; [reflexivity|done]].
  pose proof (onTagDone_trace _ _ _ H) as Htr.
  pose proof (callbacksOf_lookup _ _ _ H) as Hcb.
  split.
  - intros Hwf. apply (wf_extend w _ (doneEvents r run)); try done.
    + by apply doneEvents_ok.
    + intros r'. by rewrite doneEvents_zeros, doneEvents_fires.
    + intros r'. rewrite doneEvents_callbacks, doneEvents_fires. unfold provided.
      destruct (Nat.eqb_spec r r') as [<-|]; simpl;
        [|by destruct (callbacksOf w !! r') as [[]|]].
      rewrite Hcb. destruct (count run - 1 =? 0), (cb run); done.
    + intros r'. apply doneEvents_logs.
  - split; rewrite ?Hs, ?Hc, ?Htr; try done. by apply prefix_app_r.
  - split; [|done]. apply (Still_extend _ _ (doneEvents r run)); try done.
    intros r'. apply doneEvents_logs.
Qed.

Lemma onTagDone_acc r r' w run :
  runs w !! r' = Some run -> Acc r (- ind r r') 0 0 w (onTagDone r' w).
Proof.
  intros H. destruct (onTagDone_fields r' w) as (Hs & Hl & _).
  split.
  - unfold credit, signals, rendered, cnt at 1.
    rewrite (onTagDone_trace _ _ _ H), (onTagDone_runs _ _ _ H), omap_app,
      doneEvents_rendered, app_nil_r, (cnt_insert _ _ _ _ _ H).
    unfold ind. destruct (Nat.eqb_spec r r') as [->|]; simpl.
    + unfold cnt. rewrite H. simpl. lia.
    + lia.
  - unfold issued, queued, subscribed. rewrite Hs, Hl. lia.
  - unfold potential, fires, occurrences, cnt at 1.
    rewrite (onTagDone_trace _ _ _ H), (onTagDone_runs _ _ _ H), List.filter_app,
      length_app, Nat2Z.inj_add, doneEvents_fires, (cnt_insert _ _ _ _ _ H).
    rewrite (Nat.eqb_sym r' r).
    destruct (Nat.eqb_spec r r') as [->|]; simpl.
    + unfold cnt. rewrite H. simpl.
      destruct (Z.eqb_spec (count run - 1) 0), (Z.ltb_spec 0 (count run - 1)),
        (Z.ltb_spec 0 (count run)); lia.
    + lia.
Qed.

(** ** [emit] *)

Lemma emit_safe e w :
  isPlain e = true -> Safe w (emit e w).
Proof.
  intros He. split.
  - intros Hwf. apply (wf_extend w _ [e]); try done.
    + constructor; [|done]. by destruct e.
    + intros r. simpl. by destruct (plain_silent e r He) as (_&->&->&_).
    + intros r. simpl. destruct (plain_silent e r He) as (_&->&_&->&_).
      by destruct (provided r w).
    + intros r. simpl. by destruct (plain_silent e r He) as (_&_&_&_&->).
  - split; simpl; try done. by apply prefix_app_r.
  - split; [|done]. apply (Still_extend _ _ [e]); try done.
    intros r. simpl. by destruct (plain_silent e r He) as (_&_&_&_&->).
Qed.

Lemma emit_acc r e w : isPlain e = true -> Acc r 0 0 0 w (emit e w).
Proof.
  intros He. destruct (plain_silent e r He) as (H1&H2&_). split.
  - unfold credit, signals, rendered, cnt. simpl.
    rewrite omap_app. simpl. rewrite H1. simpl. rewrite app_nil_r. lia.
  - unfold issued, queued, subscribed. simpl. lia.
  - unfold potential, fires, occurrences, cnt. simpl.
    rewrite List.filter_app. simpl. rewrite H2. simpl. rewrite app_nil_r. lia.
Qed.

Lemma emit_render_safe t s w :
  subscribers w !! t = Some s -> Safe w (emit (EvRender t (sub_run s)) w).
Proof.
  intros Hs. split.
  - intros Hwf. apply (wf_extend w _ [EvRender t (sub_run s)]); try done.
    + constructor; [|done]. simpl. by rewrite Hs.
    + intros r. simpl. by destruct (provided r w).
  - split; simpl; try done. by apply prefix_app_r.
  - split; [|done]. by apply (Still_extend _ _ [EvRender t (sub_run s)]).
Qed.

Lemma emit_render_acc r t r' w : Acc r (ind r r') 0 0 w (emit (EvRender t r') w).
Proof.
  split.
  - unfold credit, signals, rendered, cnt, ind. simpl.
    rewrite omap_app, length_app. simpl. rewrite (Nat.eqb_sym r' r).
    destruct (Nat.eqb r r'); simpl; lia.
  - unfold issued, queued, subscribed. simpl. lia.
  - unfold potential, fires, occurrences, cnt. simpl.
    rewrite List.filter_app. simpl. rewrite app_nil_r. lia.
Qed.

(** ** [count++] *)

Lemma increment_safe r w : Safe w (increment r w).
Proof.
  unfold increment. destruct (runs w !! r) as [run|] eqn:H; [|reflexivity].
  etrans; [|by apply emit_safe].
  pose proof (callbacksOf_insert w r run (count run + 1) H) as Hc.
  split.
  - intros Hwf. apply (wf_extend w _ []); try done.
    + simpl. by rewrite app_nil_r.
    + intros r'. simpl. by destruct (provided r' w).
  - split; [done|done|by rewrite Hc].
  - split; [|done]. apply (Still_extend _ _ []); try done.
    simpl. by rewrite app_nil_r.
Qed.

Lemma increment_acc r r' w run :
  runs w !! r' = Some run ->
  Acc r (ind r r') 0 (if cnt r' w =? 0 then ind r r' else 0) w (increment r' w).
Proof.
  intros H. unfold increment. rewrite H.
  eapply Acc_then; [|by apply emit_acc].
  split.
  - unfold credit, signals, rendered, cnt at 1. simpl.
    rewrite (cnt_insert _ _ _ _ _ H). unfold ind.
    destruct (Nat.eqb_spec r r') as [->|]; simpl; [|lia].
    unfold cnt. rewrite H. simpl. lia.
  - unfold issued, queued, subscribed. simpl. lia.
  - unfold potential, fires, occurrences, cnt at 1. simpl.
    rewrite (cnt_insert _ _ _ _ _ H). unfold ind.
    destruct (Nat.eqb_spec r r') as [->|]; simpl.
    + unfold cnt. rewrite H. simpl.
      destruct (Z.eqb_spec (count run) 0), (Z.ltb_spec 0 (count run + 1)),
        (Z.ltb_spec 0 (count run)); lia.
    + destruct (_ =? 0); lia.
Qed.

(** ** A completion signal *)

Lemma render_safe t w : Safe w (render t w).
Proof.
  unfold render. destruct (subscribers w !! t) as [s|] eqn:H; [|reflexivity].
  etrans; [|apply onTagDone_safe]. by apply emit_render_safe.
Qed.

Lemma wf_sub_run w t s :
  wf w -> subscribers w !! t = Some s -> is_Some (runs w !! sub_run s).
Proof.
  intros [H _ _ _ _ _ _] Hs. apply lookup_lt_is_Some.
  rewrite Forall_forall in H. apply H. by eapply list_elem_of_lookup_2.
Qed.

Lemma render_acc r t w : wf w -> Acc r 0 0 0 w (render t w).
Proof.
  intros Hwf. unfold render.
  destruct (subscribers w !! t) as [s|] eqn:H; [|apply Acc_refl].
  destruct (wf_sub_run _ _ _ Hwf H) as [run Hrun].
  eapply Acc_eq;
    [eapply Acc_trans; [apply emit_render_acc|by eapply onTagDone_acc]|lia..].
Qed.

(** ** [process] *)

Lemma renders_safe l w : Safe w (fold_left (fun w' t => render t w') l w).
Proof.
  revert w. induction l as [|t l IH]; intros w; simpl; [reflexivity|].
  etrans; [apply render_safe|apply IH].
Qed.

Lemma renders_acc r l w :
  wf w -> Acc r 0 0 0 w (fold_left (fun w' t => render t w') l w).
Proof.
  revert w. induction l as [|t l IH]; intros w Hwf; simpl; [apply Acc_refl|].
  eapply Acc_then; [by apply render_acc|].
  apply IH. by apply render_safe.
Qed.

Lemma process_safe h w : Safe w (process env h w).
Proof.
  unfold process. etrans; [|apply renders_safe]. by apply emit_safe.
Qed.

Lemma process_acc r h w : wf w -> Acc r 0 0 0 w (process env h w).
Proof.
  intros Hwf. unfold process.
  apply (Acc_then _ _ _ _ _ (emit (EvProcess h) w)); [by apply emit_acc|].
  apply renders_acc. by apply emit_safe.
Qed.

(** ** [subscribe] *)

Lemma subscribe_safe h r w : (r < length (runs w))%nat -> Safe w (subscribe h r w).
Proof.
  intros Hr. unfold subscribe. etrans; [|by apply emit_safe]. split.
  - intros [H1 H2 H3 H4 H5 H6 H7]. split; simpl; try done.
    + apply Forall_app. split; [done|]. by constructor.
    + eapply Forall_impl; [done|]. intros e. apply evOK_mono; [done|].
      by apply prefix_app_r.
  - split; simpl; try done; by apply prefix_app_r.
  - by split.
Qed.

Lemma subscribe_acc r h r' w : Acc r 0 (ind r r') 0 w (subscribe h r' w).
Proof.
  unfold subscribe. eapply Acc_then; [|by apply emit_acc]. split.
  - unfold credit, signals, rendered, cnt. simpl. lia.
  - unfold issued, queued, subscribed, ind. simpl.
    rewrite List.filter_app, length_app. simpl. unfold isSubOf at 2. simpl.
    rewrite (Nat.eqb_sym r' r). destruct (Nat.eqb r r'); simpl; lia.
  - unfold potential, fires, occurrences, cnt. simpl. lia.
Qed.

(** ** [processor] and the loader *)

Lemma with_instance_safe d x w : Safe w (with_instance d x w).
Proof.
  split.
  - intros []. by split.
  - by split.
  - by split.
Qed.

Lemma with_instance_acc r d x w : Acc r 0 0 0 w (with_instance d x w).
Proof.
  untouched.
Qed.

Lemma processor_safe p w :
  (proc_run p < length (runs w))%nat -> Safe w (processor env p w).
Proof.
  intros Hr. unfold processor.
  etrans; [|apply process_safe].
  etrans; [|by apply subscribe_safe].
  etrans; [|by apply emit_safe]. apply with_instance_safe.
Qed.

Lemma processor_acc r p w :
  wf w -> (proc_run p < length (runs w))%nat ->
  Acc r 0 (ind r (proc_run p)) 0 w (processor env p w).
Proof.
  intros Hwf Hr. unfold processor.
  set (w1 := with_instance _ _ w). set (w2 := emit _ w1).
  assert (Safe w w2) as HS.
  { etrans; [apply with_instance_safe|]. by apply emit_safe. }
  eapply Acc_then; [|apply process_acc; apply subscribe_safe; [done|by apply HS]].
  eapply Acc_after; [|apply subscribe_acc].
  eapply Acc_then; [|by apply emit_acc]. apply with_instance_acc.
Qed.

Lemma enqueue_safe p w :
  (proc_run p < length (runs w))%nat -> Safe w (with_loading (loading w ++ [Some p]) w).
Proof.
  intros Hr. split.
  - intros []. split; simpl; try done.
    apply Forall_app. split; [done|]. by constructor.
  - by split.
  - by split.
Qed.

Lemma enqueue_acc r p w :
  Acc r 0 (ind r (proc_run p)) 0 w (with_loading (loading w ++ [Some p]) w).
Proof.
  split.
  - unfold credit, signals, rendered, cnt. simpl. lia.
  - unfold issued, queued, subscribed, ind. simpl.
    rewrite List.filter_app, length_app. simpl.
    rewrite (Nat.eqb_sym (proc_run p) r). destruct (Nat.eqb r (proc_run p)); simpl; lia.
  - unfold potential, fires, occurrences, cnt. simpl. lia.
Qed.

Lemma Loader_use_safe c p w :
  (proc_run p < length (runs w))%nat -> Safe w (Loader_use env c p w).
Proof.
  intros Hr. unfold Loader_use. destruct (use_now env _ c).
  - etrans; [|by apply processor_safe]. by apply emit_safe.
  - etrans; [|by apply enqueue_safe]. by apply emit_safe.
Qed.

Lemma Loader_use_acc r c p w :
  wf w -> (proc_run p < length (runs w))%nat ->
  Acc r 0 (ind r (proc_run p)) 0 w (Loader_use env c p w).
Proof.
  intros Hwf Hr. unfold Loader_use.
  destruct (use_now env _ c).
  - eapply Acc_after; [|apply processor_acc; [by apply emit_safe|done]].
    by apply emit_acc.
  - eapply Acc_after; [|apply enqueue_acc]. by apply emit_acc.
Qed.

(** ** [_processElement] *)

Lemma _processElement_safe d ti r w :
  (r < length (runs w))%nat -> Safe w (_processElement env d ti r w).
Proof.
  intros Hr. unfold _processElement. destruct (_element w !! nid d).
  - etrans; [|apply process_safe]. by apply subscribe_safe.
  - destruct (CLASSES env w _).
    + by apply processor_safe.
    + by apply Loader_use_safe.
Qed.

Lemma _processElement_acc r' d ti r w :
  wf w -> (r < length (runs w))%nat ->
  Acc r' 0 (ind r' r) 0 w (_processElement env d ti r w).
Proof.
  intros Hwf Hr. unfold _processElement. destruct (_element w !! nid d).
  - eapply Acc_then; [|apply process_acc; by apply subscribe_safe].
    apply subscribe_acc.
  - destruct (CLASSES env w _).
    + by apply (processor_acc r' {| proc_dom := nid d; proc_tagInfo := ti; proc_run := r |}).
    + by apply (Loader_use_acc r' _ {| proc_dom := nid d; proc_tagInfo := ti; proc_run := r |}).
Qed.

(** One turn of the loop: [count++], then the bind. *)
Lemma bind_safe d ti r w :
  (r < length (runs w))%nat -> Safe w (_processElement env d ti r (increment r w)).
Proof.
  intros Hr. pose proof (increment_safe r w) as HS.
  etrans; [apply HS|]. apply _processElement_safe.
  by rewrite (Still_length _ _ (frame_still _ _ (safe_frame _ _ HS))).
Qed.

Lemma bind_acc r' d ti r w :
  wf w -> (r < length (runs w))%nat ->
  Acc r' (ind r' r) (ind r' r) (if cnt r w =? 0 then ind r' r else 0)
    w (_processElement env d ti r (increment r w)).
Proof.
  intros Hwf Hr. destruct (lookup_lt_is_Some_2 _ _ Hr) as [run Hrun].
  pose proof (increment_safe r w) as HS.
  eapply Acc_eq; [eapply Acc_trans; [by eapply increment_acc|]|..].
  - apply _processElement_acc; [by apply HS|].
    by rewrite (Still_length _ _ (frame_still _ _ (safe_frame _ _ HS))).
  - lia.
  - lia.
  - lia.
Qed.

(** ** Signals against subscriptions *)

Lemma filter_by_index {A} (p : A -> bool) (l : list A) :
  length (List.filter (fun t => from_option p false (l !! t)) (seq 0 (length l))) =
  length (List.filter p l).
Proof.
  induction l as [|x l IH] using rev_ind; [done|].
  rewrite length_app. simpl. rewrite Nat.add_1_r, seq_S. simpl.
  rewrite !List.filter_app, !length_app. simpl.
  rewrite lookup_app_r, Nat.sub_diag by lia. simpl.
  rewrite <- IH. f_equal; [|by destruct (p x)]. f_equal. apply List.filter_ext_in.
  intros t Ht. apply in_seq in Ht. by rewrite lookup_app_l by lia.
Qed.

(** No subscription called back twice: there are at most as many
    signals as subscriptions. *)
Lemma signals_le_subscribed r w :
  wf w -> NoDup (rendered r w) -> signals r w <= Z.of_nat (subscribed r w).
Proof.
  intros Hwf Hnd. unfold signals, subscribed.
  rewrite <- (filter_by_index (isSubOf r)). apply inj_le.
  apply submseteq_length, NoDup_submseteq; [done|].
  intros t Ht. apply list_elem_of_omap in Ht as (e & He & Hr).
  destruct e; simpl in Hr; try done.
  destruct (Nat.eqb_spec r0 r) as [->|]; [|done]. injection Hr as ->.
  pose proof (wf_trace _ Hwf) as Htr. rewrite Forall_forall in Htr.
  specialize (Htr _ He). simpl in Htr.
  destruct (subscribers w !! t) as [s|] eqn:Hs; [|done]. injection Htr as Hrun.
  apply list_elem_of_In, filter_In. split.
  - apply in_seq. apply lookup_lt_Some in Hs. lia.
  - rewrite Hs. simpl. unfold isSubOf. rewrite Hrun. apply Nat.eqb_refl.
Qed.

Lemma phase_le_cnt r w : wf w -> NoDup (rendered r w) -> phase r w <= cnt r w.
Proof.
  intros Hwf Hnd. pose proof (signals_le_subscribed _ _ Hwf Hnd).
  unfold phase, credit, issued. lia.
Qed.

Lemma rendered_prefix r w w' :
  Grows w w' -> NoDup (rendered r w') -> NoDup (rendered r w).
Proof.
  intros [[l Hl] _ _]. unfold rendered. rewrite Hl, omap_app.
  intros H. by apply NoDup_app in H as [? _].
Qed.

(** ** The loop over the elements *)

Lemma Acc_Binds r w w' : Acc r 0 0 0 w w' -> Binds r 0 w w'.
Proof. intros []. split; intros; lia. Qed.

Lemma Binds_trans r n m w1 w2 w3 :
  Grows w2 w3 -> Binds r n w1 w2 -> Binds r m w2 w3 -> Binds r (n + m) w1 w3.
Proof.
  intros HG [A1 B1 C1] [A2 B2 C2]. split; [lia..|].
  intros Hnd Hph. rewrite C2, C1; try done.
  - by eapply rendered_prefix.
  - unfold phase in *. lia.
Qed.

Lemma bind_binds d ti r w :
  wf w -> (r < length (runs w))%nat ->
  Binds r 1 w (_processElement env d ti r (increment r w)).
Proof.
  intros Hwf Hr. destruct (bind_acc r d ti r w Hwf Hr) as [A B C].
  rewrite ind_same in *. split; [done..|].
  intros Hnd Hph. rewrite C.
  pose proof (phase_le_cnt r w Hwf) as Hle.
  destruct (Z.eqb_spec (cnt r w) 0); [|lia].
  assert (NoDup (rendered r w)).
  { eapply rendered_prefix; [|done]. by apply bind_safe. }
  specialize (Hle H). lia.
Qed.

Lemma bindAll_safe ti r doms w :
  (r < length (runs w))%nat -> Safe w (bindAll env ti r doms w).
Proof.
  unfold bindAll. revert w. induction doms as [|d doms IH]; intros w Hr; simpl.
  - reflexivity.
  - pose proof (bind_safe d ti r w Hr) as HS.
    etrans; [apply HS|]. apply IH.
    by rewrite (Still_length _ _ (frame_still _ _ (safe_frame _ _ HS))).
Qed.

Lemma bindAll_acc r' ti r doms w :
  r' <> r -> wf w -> (r < length (runs w))%nat ->
  Acc r' 0 0 0 w (bindAll env ti r doms w).
Proof.
  intros Hne. unfold bindAll. revert w.
  induction doms as [|d doms IH]; intros w Hwf Hr; simpl.
  - apply Acc_refl.
  - pose proof (bind_safe d ti r w Hr) as HS.
    eapply Acc_then; [|apply IH; [by apply HS|]].
    + eapply Acc_eq; [by apply bind_acc|rewrite ?ind_other by done..]; try done.
      by destruct (_ =? _).
    + by rewrite (Still_length _ _ (frame_still _ _ (safe_frame _ _ HS))).
Qed.

Lemma bindAll_binds ti r doms w :
  wf w -> (r < length (runs w))%nat ->
  Binds r (Z.of_nat (length doms)) w (bindAll env ti r doms w).
Proof.
  unfold bindAll. revert w.
  induction doms as [|d doms IH]; intros w Hwf Hr.
  - apply Acc_Binds, Acc_refl.
  - pose proof (bind_safe d ti r w Hr) as HS.
    assert (r < length (runs (_processElement env d ti r (increment r w))))%nat as Hr'.
    { by rewrite (Still_length _ _ (frame_still _ _ (safe_frame _ _ HS))). }
    replace (Z.of_nat (length (d :: doms))) with (1 + Z.of_nat (length doms))
      by (simpl length; lia).
    eapply Binds_trans; [|by apply bind_binds|apply IH; [by apply HS|done]].
    by apply (bindAll_safe ti r doms).
Qed.

(** ** The loop over the registry *)

Lemma with_tagInfos_scans x w : Scans w (with_tagInfos x w).
Proof.
  split.
  - intros []. by split.
  - by split.
  - by split.
Qed.

Lemma with_tagInfos_acc r x w : Acc r 0 0 0 w (with_tagInfos x w).
Proof.
  untouched.
Qed.

Lemma eachTagInfo_at dom r done ti rest w :
  _tagInfos w = done ++ ti :: rest -> wf w -> (r < length (runs w))%nat ->
  let w1 := eachTagInfo env dom r (length done) w in
  Scans w w1 /\
  _tagInfos w1 = (done ++ [defaultXmlns ti]) ++ rest /\
  (forall r', r' <> r -> Acc r' 0 0 0 w w1) /\
  Binds r (Z.of_nat (length (found (document w) dom ti))) w w1.
Proof.
  intros Hti Hwf Hr. unfold eachTagInfo.
  rewrite Hti, list_lookup_middle by done.
  rewrite insert_app_r_alt, Nat.sub_diag by lia. simpl.
  set (w0 := with_tagInfos _ w).
  fold (found (document w) dom ti).
  pose proof (with_tagInfos_scans (done ++ defaultXmlns ti :: rest) w) as HS0.
  fold w0 in HS0.
  assert (r < length (runs w0))%nat as Hr0 by done.
  pose proof (bindAll_safe (defaultXmlns ti) r (found (document w) dom ti) w0 Hr0)
    as HS1.
  assert (wf w0) as Hwf0 by by apply HS0.
  split_and!.
  - etrans; [apply HS0|]. by apply Safe_Scans.
  - rewrite (frame_tagInfos _ _ (safe_frame _ _ HS1)). simpl.
    by rewrite <- app_assoc.
  - intros r' Hne. eapply Acc_after; [apply (with_tagInfos_acc r')|].
    by apply bindAll_acc.
  - replace (Z.of_nat (length (found (document w) dom ti)))
      with (0 + Z.of_nat (length (found (document w) dom ti))) by lia.
    eapply Binds_trans; [apply HS1| |by apply bindAll_binds].
    apply Acc_Binds, with_tagInfos_acc.
Qed.

Lemma scan_fold dom r rest : forall done w,
  _tagInfos w = done ++ rest -> wf w -> (r < length (runs w))%nat ->
  let w' := fold_left (fun w' i => eachTagInfo env dom r i w')
              (seq (length done) (length rest)) w in
  Scans w w' /\
  _tagInfos w' = done ++ map defaultXmlns rest /\
  (forall r', r' <> r -> Acc r' 0 0 0 w w') /\
  Binds r (Z.of_nat (length (flat_map (found (document w) dom) rest))) w w'.
Proof.
  induction rest as [|ti rest IH]; intros done w Hti Hwf Hr; simpl.
  - split_and!; [reflexivity|done|intros; apply Acc_refl|apply Acc_Binds, Acc_refl].
  - destruct (eachTagInfo_at dom r done ti rest w Hti Hwf Hr) as (HS & Hti1 & HA & HB).
    set (w1 := eachTagInfo env dom r (length done) w) in *.
    assert (r < length (runs w1))%nat as Hr1.
    { by rewrite (Still_length _ _ (scans_still _ _ HS)). }
    specialize (IH (done ++ [defaultXmlns ti]) w1 Hti1 (scans_wf _ _ HS Hwf) Hr1).
    rewrite length_app, Nat.add_1_r in IH. simpl in IH.
    destruct IH as (HS' & Hti' & HA' & HB').
    rewrite (still_document _ _ (scans_still _ _ HS)) in HB'.
    split_and!.
    + by etrans.
    + by rewrite Hti', <- app_assoc.
    + intros r' Hne. eapply Acc_then; [by apply HA|by apply HA'].
    + rewrite length_app, Nat2Z.inj_add.
      eapply Binds_trans; [apply HS'|done|done].
Qed.

Lemma scan_spec dom r w :
  wf w -> (r < length (runs w))%nat ->
  Scans w (scan env dom r w) /\
  _tagInfos (scan env dom r w) = map defaultXmlns (_tagInfos w) /\
  (forall r', r' <> r -> Acc r' 0 0 0 w (scan env dom r w)) /\
  Binds r (Z.of_nat (length (matches w dom))) w (scan env dom r w).
Proof.
  intros Hwf Hr. apply (scan_fold dom r (_tagInfos w) [] w); done.
Qed.

(** ** A run that does not exist yet *)

Lemma filter_none {A} (p : A -> bool) (l : list A) :
  Forall (fun x => p x = false) l -> List.filter p l = [].
Proof. induction 1 as [|x l Hx _ IH]; simpl; [done|]. by rewrite Hx. Qed.

Lemma omap_none {A B} (f : A -> option B) (l : list A) :
  Forall (fun x => f x = None) l -> omap f l = [].
Proof. induction 1 as [|x l Hx _ IH]; simpl; [done|]. by rewrite Hx. Qed.

Lemma fresh_run r w :
  wf w -> (length (runs w) <= r)%nat ->
  cnt r w = 0 /\ rendered r w = [] /\ queued r w = 0%nat /\ subscribed r w = 0%nat /\
  armed r w = 0%nat /\
  occurrences (isFire r) w = 0%nat /\ occurrences (isLog r) w = 0%nat.
Proof.
  intros [H1 H2 H3 H4 H5 H6 H7] Hr.
  assert (forall e, evOK (callbacksOf w) (subscribers w) e ->
            renderOf r e = None /\ isFire r e = false /\ isLog r e = false) as Hev.
  { intros e He. destruct e; simpl in *; rewrite ?runs_length in He;
      split_and!; try done; try (apply Nat.eqb_neq; lia).
    destruct (Nat.eqb_spec r0 r) as [->|]; [|done].
    destruct (subscribers w !! t) as [s|] eqn:Hs; [|done]. injection He as He.
    rewrite Forall_forall in H1. apply list_elem_of_lookup_2, H1 in Hs. lia. }
  unfold cnt, rendered, queued, subscribed, armed, occurrences. split_and!.
  - by rewrite lookup_ge_None_2.
  - apply omap_none. eapply Forall_impl; [done|]. intros e He. by apply Hev.
  - rewrite filter_none; [done|]. eapply Forall_impl; [done|].
    intros [p|] Hp; simpl in *; [|done]. apply Nat.eqb_neq. lia.
  - rewrite filter_none; [done|]. eapply Forall_impl; [done|].
    intros s Hs. unfold isSubOf. simpl in *. apply Nat.eqb_neq. lia.
  - rewrite filter_none; [done|]. eapply Forall_impl; [done|].
    intros [t|] Hp; simpl in *; [|done]. apply Nat.eqb_neq. lia.
  - rewrite filter_none; [done|]. eapply Forall_impl; [done|].
    intros e He. by apply Hev.
  - rewrite filter_none; [done|]. eapply Forall_impl; [done|].
    intros e He. by apply Hev.
Qed.

(** ** [parse] *)

Lemma newRun_steps cb w : Steps w (newRun cb w).
Proof.
  assert (callbacksOf (newRun cb w) = callbacksOf w ++ [cb]) as Hc.
  { unfold callbacksOf. simpl. by rewrite map_app. }
  assert (length (runs (newRun cb w)) = S (length (runs w))) as Hn.
  { simpl. rewrite length_app. simpl. lia. }
  split.
  - intros Hwf. pose proof Hwf as [H1 H2 H3 H4 H5 H6 H7].
    split; rewrite ?Hn, ?Hc; try done.
    + eapply Forall_impl; [done|]. simpl. lia.
    + eapply Forall_impl; [done|]. intros [p|]; simpl; lia.
    + eapply Forall_impl; [done|]. intros [t|]; simpl; lia.
    + eapply Forall_impl; [done|]. intros e. apply evOK_mono; [|done].
      by apply prefix_app_r.
    + intros r. unfold provided. rewrite Hc.
      change (occurrences (isCallback r) (newRun cb w)) with (occurrences (isCallback r) w).
      change (occurrences (isFire r) (newRun cb w)) with (occurrences (isFire r) w).
      rewrite H6. unfold provided.
      destruct (decide (r < length (runs w))%nat) as [Hlt|Hge].
      * rewrite lookup_app_l; [done|]. by rewrite runs_length.
      * destruct (fresh_run r w Hwf) as (_&_&_&_&_&->&_); [lia|].
        rewrite (lookup_ge_None_2 (callbacksOf w)) by (rewrite runs_length; lia).
        by destruct ((callbacksOf w ++ [cb]) !! r) as [[]|].
  - split; try done. rewrite Hc. by apply prefix_app_r.
Qed.

Lemma newRun_acc r cb w : (r < length (runs w))%nat -> Acc r 0 0 0 w (newRun cb w).
Proof.
  intros Hr.
  assert (cnt r (newRun cb w) = cnt r w) as Hc.
  { unfold cnt. simpl. by rewrite lookup_app_l. }
  split; unfold credit, potential; rewrite ?Hc;
    unfold signals, rendered, issued, queued, subscribed, fires, occurrences;
    simpl; lia.
Qed.

Lemma newRun_self cb w :
  wf w ->
  let r := length (runs w) in
  credit r (newRun cb w) = 1 /\ issued r (newRun cb w) = 0 /\
  potential r (newRun cb w) = 1.
Proof.
  intros Hwf r.
  destruct (fresh_run r w Hwf) as (_&H1&H2&H3&_&H4&_); [done|].
  assert (cnt r (newRun cb w) = 1) as Hc.
  { unfold cnt. simpl. by rewrite list_lookup_middle. }
  unfold credit, potential, issued. rewrite Hc.
  change (signals r (newRun cb w)) with (signals r w).
  change (fires r (newRun cb w)) with (fires r w).
  change (queued r (newRun cb w)) with (queued r w).
  change (subscribed r (newRun cb w)) with (subscribed r w).
  unfold signals, fires. rewrite H1, H2, H3, H4. done.
Qed.

Lemma setTimeout_steps r w :
  (r < length (runs w))%nat -> armed r w = 0%nat -> occurrences (isLog r) w = 0%nat ->
  Steps w (setTimeout r w).
Proof.
  intros Hr Ha Hl. unfold setTimeout.
  pose proof (emit_safe (EvSetTimeout r (_renderTimeout w))
                (with_timers (timers w ++ [Some r]) w) eq_refl) as [E1 E2 _].
  split.
  - intros [H1 H2 H3 H4 H5 H6 H7]. apply E1. split; try done.
    + simpl. apply Forall_app. split; [done|]. by constructor.
    + intros r'. specialize (H7 r'). unfold armed in *. simpl.
      change (occurrences (isLog r') (with_timers (timers w ++ [Some r]) w))
        with (occurrences (isLog r') w).
      rewrite List.filter_app, length_app. simpl.
      destruct (Nat.eqb_spec r r') as [<-|]; simpl; lia.
  - etrans; [|apply E2]. by split.
Qed.

Lemma setTimeout_acc r' r w : Acc r' 0 0 0 w (setTimeout r w).
Proof.
  unfold setTimeout. eapply Acc_after; [|by apply emit_acc].
  untouched.
Qed.

(** [parse] up to the end of the loop. *)
Lemma parse_scan_spec dom cb w :
  wf w ->
  let r := length (runs w) in
  let w' := parse_scan env dom cb w in
  Steps w w' /\
  length (runs w') = S r /\
  _tagInfos w' = map defaultXmlns (_tagInfos w) /\
  document w' = document w /\
  (forall r', (r' < r)%nat -> Acc r' 0 0 0 w w') /\
  credit r w' = 1 + Z.of_nat (length (matches w (rootOf dom w))) /\
  issued r w' = Z.of_nat (length (matches w (rootOf dom w))) /\
  (NoDup (rendered r w') -> potential r w' = 1) /\
  armed r w' = 0%nat /\ occurrences (isLog r) w' = 0%nat /\
  callbacksOf w' = callbacksOf w ++ [cb].
Proof.
  intros Hwf r w'. unfold w', parse_scan. fold r.
  pose proof (newRun_steps cb w) as HS0.
  set (w0 := newRun cb w) in *.
  assert (length (runs w0) = S r) as Hn0.
  { subst w0. simpl. rewrite length_app. simpl. lia. }
  assert (wf w0) as Hwf0 by by apply HS0.
  assert (r < length (runs w0))%nat as Hr0 by lia.
  destruct (scan_spec (rootOf dom w) r w0 Hwf0 Hr0) as (HS & Hti & HA & [B1 B2 B3]).
  destruct (newRun_self cb w Hwf) as (C1 & C2 & C3). fold r w0 in C1, C2, C3.
  destruct (fresh_run r w Hwf) as (_&_&_&_&F1&_&F2); [done|].
  split_and!.
  - etrans; [apply HS0|]. by apply Scans_Steps.
  - by rewrite (Still_length _ _ (scans_still _ _ HS)).
  - done.
  - by rewrite (still_document _ _ (scans_still _ _ HS)).
  - intros r' Hr'. eapply Acc_after; [by apply newRun_acc|]. apply HA. lia.
  - change (matches w (rootOf dom w)) with (matches w0 (rootOf dom w)). lia.
  - change (matches w (rootOf dom w)) with (matches w0 (rootOf dom w)). lia.
  - intros Hnd. rewrite B3; [done|done|]. unfold phase. lia.
  - unfold armed. by rewrite (still_timers _ _ (scans_still _ _ HS)).
  - by rewrite (still_logs _ _ (scans_still _ _ HS)).
  - rewrite (still_runs _ _ (scans_still _ _ HS)). unfold callbacksOf, w0. simpl.
    by rewrite map_app.
Qed.

Lemma parse_spec dom cb w :
  wf w ->
  let r := length (runs w) in
  let w' := parse env dom cb w in
  Steps w w' /\
  length (runs w') = S r /\
  _tagInfos w' = map defaultXmlns (_tagInfos w) /\
  document w' = document w /\
  (forall r', (r' < r)%nat -> Acc r' 0 0 0 w w') /\
  credit r w' = Z.of_nat (length (matches w (rootOf dom w))) /\
  issued r w' = Z.of_nat (length (matches w (rootOf dom w))) /\
  (NoDup (rendered r w') -> potential r w' = 1) /\
  potential r w' = potential r (parse_scan env dom cb w) /\
  callbacksOf w' = callbacksOf w ++ [cb].
Proof.
  intros Hwf r w'. unfold w', parse. fold r.
  destruct (parse_scan_spec dom cb w Hwf) as (HS&Hn&Hti&Hd&HA&C1&C2&C3&C4&C5&C6).
  fold r in Hn, HA, C1, C2, C3, C4, C5.
  set (w1 := parse_scan env dom cb w) in *.
  assert (r < length (runs w1))%nat as Hr1 by lia.
  pose proof (setTimeout_steps r w1 Hr1 C4 C5) as HS2.
  set (w2 := setTimeout r w1) in *.
  pose proof (onTagDone_safe r w2) as HS3.
  destruct (lookup_lt_is_Some_2 (runs w2) r Hr1) as [run Hrun].
  pose proof (fun r' => onTagDone_acc r' r w2 run Hrun) as HA3.
  pose proof (fun r' => setTimeout_acc r' r w1) as HA2. fold w2 in HA2.
  destruct (onTagDone_fields r w2) as (_&_&_&_&_&Hti3&Hd3&_&Hc3).
  split_and!.
  - etrans; [apply HS|]. etrans; [apply HS2|]. destruct HS3. by split.
  - by rewrite <- runs_length, Hc3, runs_length.
  - by rewrite Hti3.
  - by rewrite Hd3.
  - intros r' Hr'. eapply Acc_then; [by apply HA|].
    eapply Acc_after; [apply HA2|].
    eapply Acc_eq; [apply HA3|rewrite ?ind_other by lia..]; done.
  - rewrite (acc_credit _ _ _ _ _ _ (HA3 r)), (acc_credit _ _ _ _ _ _ (HA2 r)), ind_same.
    lia.
  - rewrite (acc_issued _ _ _ _ _ _ (HA3 r)), (acc_issued _ _ _ _ _ _ (HA2 r)). lia.
  - intros Hnd.
    rewrite (acc_potential _ _ _ _ _ _ (HA3 r)), (acc_potential _ _ _ _ _ _ (HA2 r)).
    rewrite C3; [lia|]. eapply rendered_prefix; [|done].
    etrans; [apply HS2|apply HS3].
  - rewrite (acc_potential _ _ _ _ _ _ (HA3 r)), (acc_potential _ _ _ _ _ _ (HA2 r)).
    lia.
  - by rewrite Hc3.
Qed.

(** ** Later tasks *)

Lemma filter_insert_length {A} (p : A -> bool) (l : list A) k x y :
  l !! k = Some x ->
  (length (List.filter p (<[k := y]> l)) + (if p x then 1 else 0) =
   length (List.filter p l) + (if p y then 1 else 0))%nat.
Proof.
  revert k. induction l as [|z l IH]; intros [|k] H; simpl in *; try done.
  - injection H as ->. destruct (p x), (p y); simpl; lia.
  - specialize (IH k H). destruct (p z); simpl; lia.
Qed.

Lemma emit_log_wf r c ms w :
  wf w -> (r < length (runs w))%nat -> armed r w = 0%nat ->
  occurrences (isLog r) w = 0%nat -> wf (emit (EvLog r c ms) w).
Proof.
  intros [H1 H2 H3 H4 H5 H6 H7] Hr Ha Hl. split; try done.
  - simpl. apply Forall_app. split; [done|]. constructor; [|done]. simpl.
    by rewrite runs_length.
  - intros r'. specialize (H5 r'). unfold occurrences in *. simpl.
    rewrite !List.filter_app, !length_app. simpl. lia.
  - intros r'. specialize (H6 r').
    change (provided r' (emit (EvLog r c ms) w)) with (provided r' w).
    unfold occurrences in *. simpl. rewrite !List.filter_app, !length_app. simpl.
    destruct (provided r' w); lia.
  - intros r'. specialize (H7 r').
    change (armed r' (emit (EvLog r c ms) w)) with (armed r' w).
    unfold occurrences in *. simpl. rewrite List.filter_app, length_app. simpl.
    destruct (Nat.eqb_spec r r') as [<-|]; simpl; lia.
Qed.

Lemma disarm_armed k r r' w :
  timers w !! k = Some (Some r) ->
  (armed r' (with_timers (<[k := None]> (timers w)) w) +
   (if Nat.eqb r r' then 1 else 0) = armed r' w)%nat.
Proof.
  intros Hk. unfold armed. simpl.
  pose proof (filter_insert_length (isTimerOf r') (timers w) k (Some r) None Hk) as H.
  simpl in H. destruct (Nat.eqb r r'); lia.
Qed.

Lemma disarm_wf k r w :
  timers w !! k = Some (Some r) -> wf w ->
  let w1 := with_timers (<[k := None]> (timers w)) w in
  wf w1 /\ (r < length (runs w))%nat /\ armed r w1 = 0%nat /\
  occurrences (isLog r) w1 = 0%nat.
Proof.
  intros Hk Hwf w1. pose proof Hwf as [H1 H2 H3 H4 H5 H6 H7].
  pose proof (disarm_armed k r r w Hk) as Hr. rewrite Nat.eqb_refl in Hr.
  fold w1 in Hr. pose proof (H7 r) as H7r.
  change (occurrences (isLog r) w1) with (occurrences (isLog r) w).
  split_and!; [|
    |lia|lia].
  - split; try done.
    + simpl. by apply Forall_insert.
    + intros r'. specialize (H7 r'). pose proof (disarm_armed k r r' w Hk) as Hr'.
      fold w1 in Hr'.
      change (occurrences (isLog r') w1) with (occurrences (isLog r') w).
      destruct (Nat.eqb r r'); lia.
  - rewrite Forall_forall in H3. by apply (H3 (Some r)), list_elem_of_lookup_2 with k.
Qed.

Lemma expire_steps k w : Steps w (expire k w).
Proof.
  unfold expire.
  destruct (timers w !! k) as [[r|]|] eqn:Hk; [|reflexivity..].
  set (w1 := with_timers (<[k := None]> (timers w)) w).
  assert (Grows w w1) as HG by by split.
  destruct (runs w1 !! r) as [run|] eqn:Hrun;
    [destruct (count run >? 0)|]; split;
    try (intros Hwf; by destruct (disarm_wf k r w Hk Hwf) as (?&?&?&?)); try done.
  - intros Hwf. destruct (disarm_wf k r w Hk Hwf) as (?&?&?&?).
    by apply emit_log_wf.
  - etrans; [apply HG|]. split; simpl; try done. by apply prefix_app_r.
Qed.

Lemma expire_acc r k w : Acc r 0 0 0 w (expire k w).
Proof.
  unfold expire.
  destruct (timers w !! k) as [[r'|]|] eqn:Hk; [|apply Acc_refl..].
  set (w1 := with_timers (<[k := None]> (timers w)) w).
  assert (Acc r 0 0 0 w w1) as HA.
  { untouched. }
  destruct (runs w1 !! r') as [run|] eqn:Hrun; [|done].
  destruct (count run >? 0); [|done].
  eapply Acc_then; [apply HA|].
  split; unfold credit, signals, rendered, issued, queued, subscribed, potential,
    fires, occurrences, cnt; simpl;
    rewrite ?omap_app, ?List.filter_app; simpl; rewrite ?app_nil_r; lia.
Qed.

Lemma loaded_steps k w : wf w -> Steps w (loaded env k w).
Proof.
  intros Hwf. unfold loaded.
  destruct (loading w !! k) as [[p|]|] eqn:Hk; [|reflexivity..].
  set (w1 := with_loading (<[k := None]> (loading w)) w).
  assert (proc_run p < length (runs w))%nat as Hp.
  { pose proof (wf_loading _ Hwf) as H. rewrite Forall_forall in H.
    by apply (H (Some p)), list_elem_of_lookup_2 with k. }
  assert (Steps w w1) as HS1.
  { split; [|by split]. intros [H1 H2 H3 H4 H5 H6 H7]. split; try done.
    simpl. by apply Forall_insert. }
  etrans; [apply HS1|].
  destruct (processor_safe p w1 Hp). by split.
Qed.

Lemma loaded_acc r k w : wf w -> Acc r 0 0 0 w (loaded env k w).
Proof.
  intros Hwf. unfold loaded.
  destruct (loading w !! k) as [[p|]|] eqn:Hk; [|apply Acc_refl..].
  set (w1 := with_loading (<[k := None]> (loading w)) w).
  assert (proc_run p < length (runs w))%nat as Hp.
  { pose proof (wf_loading _ Hwf) as H. rewrite Forall_forall in H.
    by apply (H (Some p)), list_elem_of_lookup_2 with k. }
  assert (wf w1) as Hwf1.
  { destruct Hwf as [H1 H2 H3 H4 H5 H6 H7]. split; try done.
    simpl. by apply Forall_insert. }
  assert (Acc r 0 (- ind r (proc_run p)) 0 w w1) as HA.
  { split.
    - unfold credit, signals, rendered, cnt. simpl. lia.
    - unfold issued, queued, subscribed, ind. simpl.
      pose proof (filter_insert_length (isProcOf r) (loading w) k (Some p) None Hk) as H.
      simpl in H. rewrite (Nat.eqb_sym r). destruct (Nat.eqb (proc_run p) r); lia.
    - unfold potential, fires, occurrences, cnt. simpl. lia. }
  eapply Acc_eq; [eapply Acc_trans; [apply HA|by apply processor_acc]|lia..].
Qed.

Lemma registerTag_steps ti w : Steps w (registerTag ti w).
Proof. apply Scans_Steps, with_tagInfos_scans. Qed.

Lemma registerTag_acc r ti w : Acc r 0 0 0 w (registerTag ti w).
Proof. apply with_tagInfos_acc. Qed.

Lemma with_document_steps x w : Steps w (with_document x w).
Proof.
  split.
  - intros []. by split.
  - by split.
Qed.

Lemma with_document_acc r x w : Acc r 0 0 0 w (with_document x w).
Proof.
  untouched.
Qed.

Lemma step_spec a w :
  wf w ->
  Steps w (step env w a) /\
  forall r, (r < length (runs w))%nat -> Acc r 0 0 0 w (step env w a).
Proof.
  intros Hwf. destruct a as [dom cb|dom markup cb|ti|k|t|k]; simpl.
  - destruct (parse_spec dom cb w Hwf) as (HS&_&_&_&HA&_). by split.
  - unfold set. set (w1 := with_document _ w).
    pose proof (with_document_steps (setInnerHTML (nid dom) (parseMarkup env markup) (document w)) w) as HS1.
    fold w1 in HS1.
    destruct (parse_spec (Some (setChildren (nid dom) (parseMarkup env markup) dom)) cb w1
                (steps_wf _ _ HS1 Hwf)) as (HS&_&_&_&HA&_).
    split; [by etrans|]. intros r Hr.
    eapply Acc_after; [apply with_document_acc|]. by apply HA.
  - split; [apply registerTag_steps|]. intros. apply registerTag_acc.
  - split; [by apply loaded_steps|]. intros. by apply loaded_acc.
  - split; [|intros; by apply render_acc].
    destruct (render_safe t w). by split.
  - split; [apply expire_steps|]. intros. apply expire_acc.
Qed.

Lemma exec_spec l : forall w,
  wf w ->
  Steps w (exec env w l) /\
  forall r, (r < length (runs w))%nat -> Acc r 0 0 0 w (exec env w l).
Proof.
  unfold exec. induction l as [|a l IH]; intros w Hwf; simpl.
  - split; [reflexivity|]. intros. apply Acc_refl.
  - destruct (step_spec a w Hwf) as [HS HA].
    destruct (IH (step env w a) (steps_wf _ _ HS Hwf)) as [HS' HA'].
    split; [by etrans|]. intros r Hr.
    eapply Acc_then; [by apply HA|]. apply HA'.
    pose proof (Grows_length _ _ (steps_grows _ _ HS)). lia.
Qed.

(** ** One run, from its [parse] on *)

(** Whatever happens after [parse] returns: the counter plus the signals
    it absorbed stays at the number of elements found, every bind stays
    queued or subscribed, and the potential does not move. *)
Lemma run_accounting dom cb w acts :
  wf w ->
  let r := length (runs w) in
  let w1 := parse env dom cb w in
  let w' := exec env w1 acts in
  let n := Z.of_nat (length (matches w (rootOf dom w))) in
  wf w1 /\ wf w' /\ Grows w1 w' /\
  credit r w' = n /\ issued r w' = n /\
  potential r w' = potential r (parse_scan env dom cb w) /\
  callbacksOf w' !! r = Some cb.
Proof.
  intros Hwf r w1 w' n.
  destruct (parse_spec dom cb w Hwf) as (HS&Hn&_&_&_&C1&C2&_&C3&C4).
  fold r w1 in HS, Hn, C1, C2, C3, C4.
  assert (wf w1) as Hwf1 by by apply HS.
  destruct (exec_spec acts w1 Hwf1) as [HS' HA]. fold w' in HS', HA.
  assert (r < length (runs w1))%nat as Hr by lia.
  destruct (HA r Hr) as [A1 A2 A3].
  split_and!; try done.
  - by apply HS'.
  - apply HS'.
  - unfold n. lia.
  - unfold n. lia.
  - lia.
  - destruct (grows_runs _ _ (steps_grows _ _ HS')) as [k ->].
    rewrite C4. rewrite <- app_assoc. apply list_lookup_middle.
    by rewrite runs_length.
Qed.

(** If no subscription of the run is called back twice, the counter
    never goes below zero and the global event has been fired once when
    the counter is at zero, and not at all before. *)
Lemma run_exactly_once dom cb w acts :
  wf w ->
  let r := length (runs w) in
  let w' := exec env (parse env dom cb w) acts in
  let n := Z.of_nat (length (matches w (rootOf dom w))) in
  NoDup (rendered r w') ->
  signals r w' <= n /\
  cnt r w' = n - signals r w' /\
  fires r w' = (if cnt r w' =? 0 then 1 else 0) /\
  Z.of_nat (occurrences (isCallback r) w') =
    match cb with Some _ => if cnt r w' =? 0 then 1 else 0 | None => 0 end.
Proof.
  intros Hwf r w' n Hnd.
  destruct (run_accounting dom cb w acts Hwf) as (Hwf1&Hwf'&HG&C1&C2&C3&C4).
  fold r w' n in HG, Hwf', C1, C2, C3, C4.
  destruct (parse_spec dom cb w Hwf) as (HS&_&_&_&_&_&_&P1&P2&_).
  fold r in P1, P2.
  assert (potential r w' = 1) as Hpot.
  { rewrite C3, <- P2. apply P1. by eapply rendered_prefix. }
  pose proof (signals_le_subscribed r w' Hwf' Hnd) as Hle.
  assert (signals r w' <= n) by (unfold issued in C2; lia).
  assert (fires r w' = if cnt r w' =? 0 then 1 else 0) as Hf.
  { unfold potential, credit in *.
    destruct (Z.eqb_spec (cnt r w') 0), (Z.ltb_spec 0 (cnt r w')); lia. }
  split_and!; try done.
  - unfold credit in C1. lia.
  - rewrite (wf_called _ Hwf' r). unfold provided. rewrite C4.
    destruct cb; [|done]. exact Hf.
Qed.

(** ** The order of the signals *)

Lemma exec_renders l w :
  exec env w (map Render l) = fold_left (fun w' t => render t w') l w.
Proof. unfold exec. revert w. induction l as [|t l IH]; intros w; simpl; [done|apply IH]. Qed.

Lemma render_signals r t w :
  signals r (render t w) =
  signals r w + (if isTokenOf r (subscribers w) t then 1 else 0).
Proof.
  unfold render, isTokenOf. destruct (subscribers w !! t) as [s|] eqn:Hs; simpl; [|lia].
  set (w1 := emit _ w).
  assert (signals r w1 = signals r w + (if isSubOf r s then 1 else 0)) as H1.
  { unfold signals, rendered, w1, isSubOf. simpl. rewrite omap_app, length_app. simpl.
    destruct (Nat.eqb (sub_run s) r); simpl; lia. }
  rewrite <- H1. unfold signals, rendered.
  destruct (runs w1 !! sub_run s) as [run|] eqn:Hrun.
  - by rewrite (onTagDone_trace _ _ _ Hrun), omap_app, doneEvents_rendered, app_nil_r.
  - by rewrite onTagDone_none.
Qed.

Lemma renders_signals r l : forall w,
  signals r (fold_left (fun w' t => render t w') l w) =
  signals r w + Z.of_nat (length (List.filter (isTokenOf r (subscribers w)) l)).
Proof.
  induction l as [|t l IH]; intros w; simpl; [lia|].
  rewrite IH, render_signals.
  assert (subscribers (render t w) = subscribers w) as ->.
  { destruct (render_safe t w) as [_ [_ [k Hk] _] _].
    unfold render in *. destruct (subscribers w !! t); [|done].
    by destruct (onTagDone_fields (sub_run s) (emit (EvRender t (sub_run s)) w)) as [-> _]. }
  destruct (isTokenOf r (subscribers w) t); simpl; lia.
Qed.

Lemma filter_length_perm {A} (p : A -> bool) (l1 l2 : list A) :
  Permutation l1 l2 -> length (List.filter p l1) = length (List.filter p l2).
Proof.
  induction 1 as [|x l1 l2 _ IH|x y l|l1 l2 l3 _ IH1 _ IH2]; simpl.
  - done.
  - destruct (p x); simpl; lia.
  - destruct (p x), (p y); simpl; lia.
  - lia.
Qed.

(** The same signals in another order: the same counter, the same
    number of fires and of callbacks, for every run. *)
Lemma renders_order w l1 l2 r :
  wf w -> Permutation l1 l2 ->
  let w1 := exec env w (map Render l1) in
  let w2 := exec env w (map Render l2) in
  cnt r w1 = cnt r w2 /\ fires r w1 = fires r w2 /\
  occurrences (isCallback r) w1 = occurrences (isCallback r) w2.
Proof.
  intros Hwf Hp w1 w2. unfold w1, w2. rewrite !exec_renders.
  set (v1 := fold_left _ l1 w). set (v2 := fold_left _ l2 w).
  pose proof (renders_acc r l1 w Hwf) as [A1 _ B1].
  pose proof (renders_acc r l2 w Hwf) as [A2 _ B2].
  pose proof (renders_safe l1 w) as [W1 _ [[_ _ _ R1 _] _]].
  pose proof (renders_safe l2 w) as [W2 _ [[_ _ _ R2 _] _]].
  fold v1 in A1, B1, W1, R1. fold v2 in A2, B2, W2, R2.
  pose proof (renders_signals r l1 w) as S1. pose proof (renders_signals r l2 w) as S2.
  fold v1 in S1. fold v2 in S2.
  rewrite (filter_length_perm _ _ _ Hp) in S1.
  assert (cnt r v1 = cnt r v2) as Hc by (unfold credit in *; lia).
  assert (fires r v1 = fires r v2) as Hf.
  { unfold potential in *. rewrite Hc in B1. lia. }
  split_and!; try done.
  rewrite (wf_called _ (W1 Hwf) r), (wf_called _ (W2 Hwf) r).
  unfold provided. rewrite R1, R2. unfold fires in Hf.
  destruct (callbacksOf w !! r) as [[]|]; lia.
Qed.

(** ** A subtree without tags *)

Lemma flat_map_nil {A B} (f : A -> list B) (l : list A) :
  flat_map f l = [] -> Forall (fun x => f x = []) l.
Proof.
  induction l as [|x l IH]; simpl; intros H; [constructor|].
  apply app_eq_nil in H as [? ?]. constructor; auto.
Qed.

Lemma scan_nothing_fold dom r rest : forall done w,
  _tagInfos w = done ++ rest ->
  Forall (fun ti => found (document w) dom ti = []) rest ->
  fold_left (fun w' i => eachTagInfo env dom r i w') (seq (length done) (length rest)) w =
  with_tagInfos (done ++ map defaultXmlns rest) w.
Proof.
  induction rest as [|ti rest IH]; intros done w Hti Hnone; simpl.
  - rewrite <- Hti. by destruct w.
  - inversion Hnone as [|? ? Hti0 Hrest]; subst.
    unfold eachTagInfo at 2. rewrite Hti, list_lookup_middle by done.
    rewrite insert_app_r_alt, Nat.sub_diag by lia. simpl.
    fold (found (document w) dom ti). rewrite Hti0. unfold bindAll. simpl.
    set (w0 := with_tagInfos _ w).
    specialize (IH (done ++ [defaultXmlns ti]) w0).
    rewrite length_app, Nat.add_1_r in IH. rewrite IH.
    + unfold w0. by rewrite <- app_assoc.
    + unfold w0. simpl. by rewrite <- app_assoc.
    + done.
Qed.

Lemma scan_nothing dom r w :
  matches w dom = [] ->
  scan env dom r w = with_tagInfos (map defaultXmlns (_tagInfos w)) w.
Proof.
  intros H. apply (scan_nothing_fold dom r (_tagInfos w) [] w); [done|].
  by apply flat_map_nil.
Qed.

(** Without a subscription there is no signal. *)
Lemma no_binds_no_signals r w : wf w -> issued r w = 0 -> rendered r w = [].
Proof.
  intros Hwf Hi. destruct (rendered r w) as [|t l] eqn:Hr; [done|exfalso].
  assert (t ∈ rendered r w) as Ht by (rewrite Hr; left).
  apply list_elem_of_omap in Ht as (e & He & Hre).
  destruct e; simpl in Hre; try done.
  destruct (Nat.eqb_spec r0 r) as [->|]; [|done]. injection Hre as ->.
  pose proof (wf_trace _ Hwf) as Htr. rewrite Forall_forall in Htr.
  specialize (Htr _ He). simpl in Htr.
  destruct (subscribers w !! t) as [s|] eqn:Hs; [|done]. injection Htr as Hrun.
  assert (In s (List.filter (isSubOf r) (subscribers w))) as Hin.
  { apply filter_In. split.
    - by apply list_elem_of_In, list_elem_of_lookup_2 with t.
    - unfold isSubOf. rewrite Hrun. apply Nat.eqb_refl. }
  unfold issued, subscribed in Hi.
  destruct (List.filter (isSubOf r) (subscribers w)); [done|simpl in Hi; lia].
Qed.

(** ** The registry *)

Lemma sameDescriptor_refl ti : sameDescriptor ti ti.
Proof. split_and!; auto. Qed.

Lemma sameDescriptor_default ti : sameDescriptor ti (defaultXmlns ti).
Proof.
  unfold defaultXmlns. destruct (noXmlns ti) eqn:H; [|apply sameDescriptor_refl].
  split_and!; simpl; auto.
Qed.

Lemma sameDescriptor_trans t1 t2 t3 :
  sameDescriptor t1 t2 -> sameDescriptor t2 t3 -> sameDescriptor t1 t3.
Proof.
  intros (L1 & C1 & X1) (L2 & C2 & X2). split_and!; [congruence..|].
  destruct X1 as [X1|[N1 X1]], X2 as [X2|[N2 X2]].
  - left. congruence.
  - right. split; [|done]. unfold noXmlns in *. by rewrite <- X1.
  - right. split; [done|congruence].
  - unfold noXmlns in N2. by rewrite X1 in N2.
Qed.

#[local] Instance keeps_preorder : PreOrder keeps.
Proof.
  split.
  - intros l i ti H. exists ti. split; [done|apply sameDescriptor_refl].
  - intros l1 l2 l3 H1 H2 i ti H. destruct (H1 i ti H) as (ti' & H' & S1).
    destruct (H2 i ti' H') as (ti'' & H'' & S2). exists ti''. split; [done|].
    by eapply sameDescriptor_trans.
Qed.

Lemma keeps_default l : keeps l (map defaultXmlns l).
Proof.
  intros i ti H. exists (defaultXmlns ti). split; [|apply sameDescriptor_default].
  change (map defaultXmlns l) with (defaultXmlns <$> l).
  by rewrite list_lookup_fmap, H.
Qed.

Lemma keeps_append l x : keeps l (l ++ [x]).
Proof.
  intros i ti H. exists ti. split; [by apply lookup_app_l_Some|apply sameDescriptor_refl].
Qed.

Lemma step_registry a w : wf w -> keeps (_tagInfos w) (_tagInfos (step env w a)).
Proof.
  intros Hwf. destruct a as [dom cb|dom markup cb|ti|k|t|k]; simpl.
  - destruct (parse_spec dom cb w Hwf) as (_&_&->&_). apply keeps_default.
  - unfold set.
    pose proof (with_document_steps (setInnerHTML (nid dom) (parseMarkup env markup) (document w)) w) as HS1.
    destruct (parse_spec (Some (setChildren (nid dom) (parseMarkup env markup) dom)) cb _
                (steps_wf _ _ HS1 Hwf)) as (_&_&->&_).
    apply keeps_default.
  - apply keeps_append.
  - unfold loaded. destruct (loading w !! k) as [[p|]|] eqn:Hk; [|reflexivity..].
    assert (proc_run p < length (runs w))%nat as Hp.
    { pose proof (wf_loading _ Hwf) as H. rewrite Forall_forall in H.
      by apply (H (Some p)), list_elem_of_lookup_2 with k. }
    pose proof (processor_safe p (with_loading (<[k := None]> (loading w)) w) Hp)
      as [_ _ [_ ->]].
    reflexivity.
  - destruct (render_safe t w) as [_ _ [_ ->]]. reflexivity.
  - unfold expire. destruct (timers w !! k) as [[r|]|]; [|reflexivity..]. simpl.
    destruct (runs w !! r) as [run|]; [|reflexivity].
    destruct (count run >? 0); reflexivity.
Qed.

Lemma exec_registry l : forall w,
  wf w -> keeps (_tagInfos w) (_tagInfos (exec env w l)).
Proof.
  unfold exec. induction l as [|a l IH]; intros w Hwf; simpl; [reflexivity|].
  etrans; [by apply step_registry|]. apply IH.
  by apply (step_spec a w Hwf).
Qed.

(** A world in which nothing has happened yet is well formed. *)
Lemma wf_fresh w :
  subscribers w = [] -> loading w = [] -> timers w = [] -> trace w = [] -> wf w.
Proof.
  intros H1 H2 H3 H4. split; rewrite ?H1, ?H2, ?H3, ?H4; try done.
  - intros r. unfold occurrences. by rewrite H4.
  - intros r. unfold occurrences. rewrite H4. by destruct (provided r w).
  - intros r. unfold occurrences, armed. rewrite H3, H4. simpl. lia.
Qed.

(** Every world the page reaches after the file is loaded is well
    formed. *)
Lemma wf_reachable d acts : wf (exec env (init d) acts).
Proof.
  assert (wf (init d)) as Hwf by by apply wf_fresh.
  by apply (exec_spec acts (init d) Hwf).
Qed.

End Accounting.

(** * The specification, claim by claim *)

Lemma exec_app env w l1 l2 : exec env w (l1 ++ l2) = exec env (exec env w l1) l2.
Proof. unfold exec. apply fold_left_app. Qed.

Lemma occurrences_mono p w w' :
  Grows w w' -> (occurrences p w <= occurrences p w')%nat.
Proof.
  intros [[l Hl] _ _]. unfold occurrences. rewrite Hl, List.filter_app, length_app. lia.
Qed.

Lemma onTagDone_at_one r v run :
  runs v !! r = Some run -> count run = 1 ->
  trace (onTagDone r v) =
  trace v ++ [EvDec r 0] ++ from_option (fun f => [EvCallback r f]) [] (cb run)
          ++ [EvFire r "xfbml.render"].
Proof.
  intros H H1. rewrite (onTagDone_trace _ _ _ H). unfold doneEvents. by rewrite H1.
Qed.

(** The same, told by the signals: with [n] elements found, the event
    has been fired once when [n] signals have arrived, not before. *)
Lemma run_once_by_signals env dom cb w acts :
  wf w ->
  let r := length (runs w) in
  let w' := exec env (parse env dom cb w) acts in
  let n := Z.of_nat (length (matches w (rootOf dom w))) in
  NoDup (rendered r w') ->
  signals r w' <= n /\
  cnt r w' = n - signals r w' /\
  fires r w' = (if signals r w' =? n then 1 else 0) /\
  Z.of_nat (occurrences (isCallback r) w') =
    match cb with Some _ => if signals r w' =? n then 1 else 0 | None => 0 end.
Proof.
  intros Hwf r w' n Hnd.
  destruct (run_exactly_once env dom cb w acts Hwf Hnd) as (E0&E1&E2&E3).
  fold r w' n in E0, E1, E2, E3.
  assert ((cnt r w' =? 0) = (signals r w' =? n)) as Heq.
  { destruct (Z.eqb_spec (cnt r w') 0), (Z.eqb_spec (signals r w') n); lia. }
  rewrite Heq in E2, E3. done.
Qed.

(** C1, as the code has it.  [parse] starts its counter at 1; the
    reserved unit is given back by the last statement of [parse], after
    the loop has issued one increment and one bind for every element
    found.  As long as no subscription of the run has been called back
    more than once (what a handler owes its subscribers), the counter is
    at least 1 at the end of the scan and no decrement before that has
    reached zero, so that neither the callback nor the event has run.  A
    decrement that reaches zero runs the callback, if there is one, and
    then fires ['xfbml.render']; over the whole life of the run, under
    the same condition, this has happened once when the counter is at
    zero and not at all otherwise. *)
Theorem parse_counter_protocol env dom cb w acts :
  wf w ->
  let r := length (runs w) in
  let ws := parse_scan env dom cb w in
  let w' := exec env (parse env dom cb w) acts in
  runs (newRun cb w) !! r = Some {| count := 1; cb := cb |} /\
  parse env dom cb w = onTagDone r (setTimeout r ws) /\
  issued r ws = Z.of_nat (length (matches w (rootOf dom w))) /\
  cnt r ws + signals r ws = 1 + Z.of_nat (length (matches w (rootOf dom w))) /\
  (NoDup (rendered r ws) ->
   1 <= cnt r ws /\
   occurrences (isZero r) ws = 0%nat /\
   occurrences (isFire r) ws = 0%nat /\
   occurrences (isCallback r) ws = 0%nat) /\
  (forall v run, runs v !! r = Some run -> count run = 1 ->
     trace (onTagDone r v) =
     trace v ++ [EvDec r 0] ++ from_option (fun f => [EvCallback r f]) [] (XFBML.cb run)
             ++ [EvFire r "xfbml.render"]) /\
  (NoDup (rendered r w') ->
   0 <= cnt r w' /\
   fires r w' = (if cnt r w' =? 0 then 1 else 0) /\
   Z.of_nat (occurrences (isCallback r) w') =
     match cb with Some _ => if cnt r w' =? 0 then 1 else 0 | None => 0 end).
Proof.
  intros Hwf r ws w'.
  destruct (parse_scan_spec env dom cb w Hwf) as (HS&Hn&_&_&_&C1&C2&C3&_&_&C4).
  fold r ws in HS, Hn, C1, C2, C3, C4.
  assert (wf ws) as Hwfs by by apply HS.
  split_and!; try done.
  - simpl. by apply list_lookup_middle.
  - intros Hnds.
    pose proof (phase_le_cnt r ws Hwfs Hnds) as Hph. unfold phase in Hph.
    assert (1 <= cnt r ws) as Hge by lia.
    assert (occurrences (isFire r) ws = 0%nat) as Hf.
    { specialize (C3 Hnds). unfold potential, fires in C3.
      destruct (Z.ltb_spec 0 (cnt r ws)); lia. }
    split_and!; try done.
    + by rewrite (wf_zero _ Hwfs r).
    + rewrite (wf_called _ Hwfs r), Hf. by destruct (provided r ws).
  - intros v run. apply onTagDone_at_one.
  - intros Hnd.
    destruct (run_exactly_once env dom cb w acts Hwf Hnd) as (E0&E1&E2&E3).
    fold r w' in E0, E1, E2, E3. split_and!; try done. lia.
Qed.

Lemma parse_counter_protocol_witness :
  wf (likeOnly page) /\
  NoDup (rendered 0 (parse_scan atOnceEnv None (Some 7%nat) (likeOnly page))) /\
  1 <= cnt 0 (parse_scan atOnceEnv None (Some 7%nat) (likeOnly page)) /\
  NoDup (rendered 0 (exec atOnceEnv (parse atOnceEnv None (Some 7%nat) (likeOnly page))
                       [Expire 0%nat])) /\
  fires 0 (exec atOnceEnv (parse atOnceEnv None (Some 7%nat) (likeOnly page))
             [Expire 0%nat]) = 1.
Proof.
  assert (wf (likeOnly page)) as Hwf by by apply wf_fresh.
  assert (NoDup (rendered 0 (parse_scan atOnceEnv None (Some 7%nat) (likeOnly page))))
    as Hnds.
  { apply (bool_decide_unpack _). vm_compute. exact I. }
  assert (NoDup (rendered 0 (exec atOnceEnv (parse atOnceEnv None (Some 7%nat) (likeOnly page))
                       [Expire 0%nat]))) as Hnd.
  { apply (bool_decide_unpack _). vm_compute. exact I. }
  pose proof (parse_counter_protocol atOnceEnv None (Some 7%nat) (likeOnly page)
                [Expire 0%nat] Hwf) as H.
  destruct H as (_&_&_&_&H1&_&H2).
  destruct (H1 Hnds) as (H1'&_). destruct (H2 Hnd) as (_&H2'&_).
  split_and!; [exact Hwf|exact Hnds|exact H1'|exact Hnd|].
  refine (eq_trans H2' _). vm_compute. reflexivity.
Defined.

(** C1 as stated does not hold for every invocation: the reserved unit
    covers the scan only against handlers that signal once.  The handler
    of the first of two elements calls its subscription back twice inside
    [process()]: the counter goes 2, 1, 0 while the second element has
    not been counted yet, the callback and the event run, and they run
    again when the second element completes, all before the last
    statement of [parse] gives the reserved unit back. *)
Lemma zero_while_the_scan_is_running :
  let ws := parse_scan twiceEnv (Some container) (Some 7%nat) (likeOnly page) in
  matches (likeOnly page) container = [likeA; likeB] /\
  trace ws =
    [ EvInc 0 2; EvNew 0 "FB.XFBML.Like" 11; EvSubscribe 0 0; EvProcess 0;
      EvRender 0 0; EvDec 0 1; EvRender 0 0; EvDec 0 0;
      EvCallback 0 7; EvFire 0 "xfbml.render";
      EvInc 0 1; EvNew 1 "FB.XFBML.Like" 12; EvSubscribe 1 0; EvProcess 1;
      EvRender 1 0; EvDec 0 0; EvCallback 0 7; EvFire 0 "xfbml.render" ] /\
  occurrences (isZero 0) ws = 2%nat /\
  occurrences (isCallback 0) ws = 2%nat /\
  occurrences (isFire 0) ws = 2%nat.
Proof. vm_compute. done. Qed.

(** C2. A subtree with [n] matching elements, over all registered tags:
    as long as no subscription of the run is called back more than once,
    the counter is [n] minus the completions seen so far, and the global
    event and the callback have run exactly once when all [n] completions
    have been seen and not at all before, whether the completions came
    inside [process()] or later.  Delivering the same completion signals
    in another order gives the same counter and the same number of fires
    and callbacks. *)
Theorem callback_once_after_all_completions env dom cb w acts :
  wf w ->
  let r := length (runs w) in
  let w' := exec env (parse env dom cb w) acts in
  let n := Z.of_nat (length (matches w (rootOf dom w))) in
  NoDup (rendered r w') ->
  signals r w' <= n /\
  cnt r w' = n - signals r w' /\
  fires r w' = (if signals r w' =? n then 1 else 0) /\
  Z.of_nat (occurrences (isCallback r) w') =
    match cb with Some _ => if signals r w' =? n then 1 else 0 | None => 0 end /\
  (forall l1 l2 r', Permutation l1 l2 ->
     cnt r' (exec env w' (map Render l1)) = cnt r' (exec env w' (map Render l2)) /\
     fires r' (exec env w' (map Render l1)) = fires r' (exec env w' (map Render l2)) /\
     occurrences (isCallback r') (exec env w' (map Render l1)) =
       occurrences (isCallback r') (exec env w' (map Render l2))).
Proof.
  intros Hwf r w' n Hnd.
  destruct (run_once_by_signals env dom cb w acts Hwf Hnd) as (E0&E1&E2&E3).
  fold r w' n in E0, E1, E2, E3.
  destruct (run_accounting env dom cb w acts Hwf) as (_&Hwf'&_).
  fold w' in Hwf'.
  split_and!; try done.
  intros l1 l2 r' Hp. by apply renders_order.
Qed.

Lemma callback_once_after_all_completions_witness :
  wf (likeOnly page) /\
  NoDup (rendered 0 (exec laterEnv (parse laterEnv None (Some 7%nat) (likeOnly page))
                       [Render 1%nat; Render 0%nat])) /\
  fires 0 (exec laterEnv (parse laterEnv None (Some 7%nat) (likeOnly page))
             [Render 1%nat; Render 0%nat]) = 1.
Proof.
  assert (wf (likeOnly page)) as Hwf by by apply wf_fresh.
  assert (NoDup (rendered 0 (exec laterEnv (parse laterEnv None (Some 7%nat) (likeOnly page))
                       [Render 1%nat; Render 0%nat]))) as Hnd.
  { apply (bool_decide_unpack _). vm_compute. exact I. }
  split_and!; [exact Hwf|exact Hnd|].
  pose proof (callback_once_after_all_completions laterEnv None (Some 7%nat) (likeOnly page)
                [Render 1%nat; Render 0%nat] Hwf Hnd) as H.
  destruct H as (_&_&H&_).
  refine (eq_trans H _). vm_compute. reflexivity.
Defined.

(** C3, on the failing input: the handler class is not loaded yet and
    [parse()] is called twice before the loader answers.  Each call
    queues its own [processor] for the element 11, and each [processor]
    runs [new fn(dom)]: two handler objects for one element, the second
    replacing the first in [dom._element]. *)
Theorem two_instances_for_one_element :
  let w' := exec lazyEnv (likeOnly page)
              [Call_parse None None; Call_parse None None;
               Loaded 0%nat; Loaded 1%nat; Loaded 2%nat; Loaded 3%nat] in
  occurrences (isNewFor 11) w' = 2%nat /\
  instances w' =
    [ {| h_class := "FB.XFBML.Like"; h_dom := 11%nat |};
      {| h_class := "FB.XFBML.Like"; h_dom := 12%nat |};
      {| h_class := "FB.XFBML.Like"; h_dom := 11%nat |};
      {| h_class := "FB.XFBML.Like"; h_dom := 12%nat |} ] /\
  _element w' !! 11%nat = Some 2%nat.
Proof. vm_compute. done. Qed.

(** The path that does reuse: an element that already carries its
    handler gets a subscription and a [process()], and no new object. *)
Lemma bound_element_is_reused env dom ti r w h :
  _element w !! nid dom = Some h ->
  _processElement env dom ti r w = process env h (subscribe h r w) /\
  instances (_processElement env dom ti r w) = instances w /\
  _element (_processElement env dom ti r w) = _element w.
Proof.
  intros H. unfold _processElement. rewrite H. split; [done|].
  unfold process. set (w1 := emit _ _). generalize (render_now env w1 h).
  assert (instances w1 = instances w /\ _element w1 = _element w) as Hw1 by done.
  revert Hw1. generalize w1. clear w1. intros w1 Hw1 l. revert w1 Hw1.
  induction l as [|t l IH]; intros w1 Hw1; simpl; [done|].
  apply IH. unfold render. destruct (subscribers w1 !! t) as [s|]; [|done].
  destruct (onTagDone_fields (sub_run s) (emit (EvRender t (sub_run s)) w1))
    as (_&_&_&->&->&_). done.
Qed.

(** C4, as the code has it.  When the timer of a run fires while fewer
    completion signals than the [n] elements found have arrived, the
    function given to [setTimeout] logs the remaining count, which is [n]
    minus the signals seen, and does nothing else: the counter, the
    subscriptions, the loader's queue and the handlers stay as they are,
    and neither the callback nor the global event is run by it.  The
    diagnostic of the run is logged once, whatever happens later.  If no
    subscription of the run has been called back more than once up to
    then, the callback and the event have not run up to then.  The
    timeout does not end the run: if no subscription is called back more
    than once, the callback is still invoked, once, when the remaining
    completions arrive after the timeout. *)
Theorem timeout_only_reports env dom cb w before after k :
  wf w ->
  let r := length (runs w) in
  let n := Z.of_nat (length (matches w (rootOf dom w))) in
  let w1 := exec env (parse env dom cb w) before in
  let w2 := expire k w1 in
  let w3 := exec env w2 after in
  timers w1 !! k = Some (Some r) ->
  signals r w1 < n ->
  trace w2 = trace w1 ++ [EvLog r (n - signals r w1) (_renderTimeout w1)] /\
  runs w2 = runs w1 /\ subscribers w2 = subscribers w1 /\ loading w2 = loading w1 /\
  instances w2 = instances w1 /\ _element w2 = _element w1 /\
  occurrences (isCallback r) w2 = occurrences (isCallback r) w1 /\
  occurrences (isFire r) w2 = occurrences (isFire r) w1 /\
  occurrences (isLog r) w3 = 1%nat /\
  (NoDup (rendered r w1) ->
   occurrences (isCallback r) w2 = 0%nat /\ occurrences (isFire r) w2 = 0%nat) /\
  (NoDup (rendered r w3) ->
   Z.of_nat (occurrences (isCallback r) w3) =
     match cb with Some _ => if signals r w3 =? n then 1 else 0 | None => 0 end).
Proof.
  intros Hwf r n w1 w2 w3 Hk Hlt.
  destruct (run_accounting env dom cb w before Hwf) as (Hwf0&Hwf1&_&A1&_).
  fold r w1 n in Hwf1, A1. unfold credit in A1.
  pose proof (expire_steps k w1) as HS2. fold w2 in HS2.
  destruct (exec_spec env after w2 (steps_wf _ _ HS2 Hwf1)) as [HS3 _]. fold w3 in HS3.
  assert (exists run, runs w1 !! r = Some run /\ count run = n - signals r w1) as (run&Hrun&Hc).
  { unfold cnt in A1. destruct (runs w1 !! r) as [run|]; simpl in A1; [|lia].
    exists run. split; [done|lia]. }
  assert (w2 = emit (EvLog r (n - signals r w1) (_renderTimeout w1))
                 (with_timers (<[k := None]> (timers w1)) w1)) as Hw2.
  { unfold w2, expire. rewrite Hk. simpl. rewrite Hrun, Hc.
    destruct (Z.gtb_spec (n - signals r w1) 0); [done|lia]. }
  assert (occurrences (isCallback r) w2 = occurrences (isCallback r) w1) as Hcb.
  { rewrite Hw2. unfold occurrences. simpl. rewrite List.filter_app, length_app. simpl. lia. }
  assert (occurrences (isFire r) w2 = occurrences (isFire r) w1) as Hfi.
  { rewrite Hw2. unfold occurrences. simpl. rewrite List.filter_app, length_app. simpl. lia. }
  split_and!; try (by rewrite Hw2); try done.
  - pose proof (wf_logged _ (steps_wf _ _ HS3 (steps_wf _ _ HS2 Hwf1)) r) as Hle.
    pose proof (occurrences_mono (isLog r) w2 w3 (steps_grows _ _ HS3)) as Hmono.
    assert (1 <= occurrences (isLog r) w2)%nat.
    { rewrite Hw2. unfold occurrences. simpl. rewrite List.filter_app, length_app. simpl.
      rewrite Nat.eqb_refl. simpl. lia. }
    lia.
  - intros Hnd1.
    destruct (run_exactly_once env dom cb w before Hwf Hnd1) as (_&E1&E2&E3).
    fold r w1 n in E1, E2, E3.
    assert ((cnt r w1 =? 0) = false) as Hnz by (apply Z.eqb_neq; lia).
    rewrite Hnz in E2, E3. rewrite Hcb, Hfi. unfold fires in E2.
    split; [destruct cb|]; lia.
  - intros Hnd.
    assert (w3 = exec env (parse env dom cb w) (before ++ Expire k :: after)) as Hw3.
    { by rewrite exec_app. }
    rewrite Hw3 in Hnd.
    destruct (run_once_by_signals env dom cb w
                (before ++ Expire k :: after) Hwf Hnd) as (_&_&_&F3).
    rewrite <- Hw3 in F3. exact F3.
Qed.

Lemma timeout_only_reports_witness :
  wf (likeOnly page) /\
  timers (exec laterEnv (parse laterEnv None (Some 7%nat) (likeOnly page)) [Render 0%nat])
    !! 0%nat = Some (Some 0%nat) /\
  signals 0 (exec laterEnv (parse laterEnv None (Some 7%nat) (likeOnly page)) [Render 0%nat])
    < 2 /\
  NoDup (rendered 0
           (exec laterEnv
              (expire 0
                 (exec laterEnv (parse laterEnv None (Some 7%nat) (likeOnly page))
                    [Render 0%nat]))
              [Render 1%nat])) /\
  occurrences (isLog 0)
    (exec laterEnv
       (expire 0
          (exec laterEnv (parse laterEnv None (Some 7%nat) (likeOnly page)) [Render 0%nat]))
       [Render 1%nat]) = 1%nat /\
  Z.of_nat (occurrences (isCallback 0)
    (exec laterEnv
       (expire 0
          (exec laterEnv (parse laterEnv None (Some 7%nat) (likeOnly page)) [Render 0%nat]))
       [Render 1%nat])) = 1.
Proof.
  assert (wf (likeOnly page)) as Hwf by by apply wf_fresh.
  assert (timers (exec laterEnv (parse laterEnv None (Some 7%nat) (likeOnly page))
                    [Render 0%nat]) !! 0%nat = Some (Some 0%nat)) as Hk by reflexivity.
  assert (NoDup (rendered 0
           (exec laterEnv
              (expire 0
                 (exec laterEnv (parse laterEnv None (Some 7%nat) (likeOnly page))
                    [Render 0%nat]))
              [Render 1%nat]))) as Hnd.
  { apply (bool_decide_unpack _). vm_compute. exact I. }
  assert (signals 0 (exec laterEnv (parse laterEnv None (Some 7%nat) (likeOnly page))
                       [Render 0%nat]) < 2) as Hlt by (vm_compute; reflexivity).
  pose proof (timeout_only_reports laterEnv None (Some 7%nat) (likeOnly page)
                [Render 0%nat] [Render 1%nat] 0%nat Hwf Hk Hlt) as H.
  destruct H as (_&_&_&_&_&_&_&_&H&_&H').
  split_and!; [exact Hwf|exact Hk|exact Hlt|exact Hnd|exact H|].
  refine (eq_trans (H' Hnd) _). vm_compute. reflexivity.
Defined.

(** The condition on the handlers is needed for the callback: of three
    elements the first calls its subscription back twice inside
    [process()], which takes the counter to zero during the scan, and the
    callback runs; when the timer fires, two signals have arrived, fewer
    than the three elements found, and one tag is reported as
    outstanding. *)
Lemma callback_before_timeout_when_signalled_twice :
  let three := mkNode 10 xhtml "div" [likeA; likeB; mkNode 14 xhtml "fb:like" []] in
  let env := {| CLASSES := fun _ _ => true; use_now := fun _ _ => false;
                render_now := fun _ h => if Nat.eqb h 0 then [0%nat; 0%nat] else [];
                parseMarkup := fun _ => [] |} in
  let w1 := parse env (Some three) (Some 7%nat) (likeOnly page) in
  length (matches (likeOnly page) three) = 3%nat /\
  signals 0 w1 = 2 /\
  occurrences (isCallback 0) w1 = 1%nat /\
  counterValues 0 w1 = [2; 1; 0; 1; 2; 1] /\
  omap (fun e => match e with EvLog r c ms => Some (r, c, ms) | _ => None end)
    (trace (expire 0 w1)) = [(0%nat, 1, 30000)].
Proof. vm_compute. done. Qed.

(** C4 as stated does not hold: the timeout does not end the run.  One
    of the two handlers completes, the timer fires and logs that 1 tag
    is outstanding, then the second handler completes, and the callback
    of that run is invoked. *)
Lemma callback_after_timeout :
  let w' := exec laterEnv (likeOnly page)
              [Call_parse None (Some 7%nat); Render 0%nat; Expire 0%nat; Render 1%nat] in
  trace w' =
    [ EvInc 0 2; EvNew 0 "FB.XFBML.Like" 11; EvSubscribe 0 0; EvProcess 0;
      EvInc 0 3; EvNew 1 "FB.XFBML.Like" 12; EvSubscribe 1 0; EvProcess 1;
      EvSetTimeout 0 30000; EvDec 0 2;
      EvRender 0 0; EvDec 0 1;
      EvLog 0 1 30000;
      EvRender 1 0; EvDec 0 0; EvCallback 0 7; EvFire 0 "xfbml.render" ] /\
  occurrences (isLog 0) w' = 1%nat /\
  occurrences (isCallback 0) w' = 1%nat.
Proof. vm_compute. done. Qed.

(** C5. When no element below the root matches any registered tag,
    [parse] itself, before it returns, arms the timer, takes the counter
    from 1 to 0, invokes the callback if there is one and fires the
    global event; the timer has not fired.  Nothing that happens later
    makes the callback or the event run again. *)
Theorem no_tags_completes_at_once env dom cb w acts :
  wf w ->
  matches w (rootOf dom w) = [] ->
  let r := length (runs w) in
  let w1 := parse env dom cb w in
  trace w1 =
    trace w ++ [EvSetTimeout r (_renderTimeout w); EvDec r 0]
            ++ from_option (fun f => [EvCallback r f]) [] cb
            ++ [EvFire r "xfbml.render"] /\
  timers w1 = timers w ++ [Some r] /\
  cnt r w1 = 0 /\
  fires r (exec env w1 acts) = 1 /\
  Z.of_nat (occurrences (isCallback r) (exec env w1 acts)) =
    match cb with Some _ => 1 | None => 0 end.
Proof.
  intros Hwf Hnone r w1.
  assert (w1 = onTagDone r (setTimeout r
                 (with_tagInfos (map defaultXmlns (_tagInfos w)) (newRun cb w)))) as Hw1.
  { unfold w1, parse, parse_scan. fold r. by rewrite scan_nothing. }
  set (w0 := setTimeout r _) in Hw1.
  assert (runs w0 !! r = Some {| count := 1; cb := cb |}) as Hrun.
  { simpl. by apply list_lookup_middle. }
  destruct (run_accounting env dom cb w acts Hwf) as (_&Hwf'&_&A1&A2&_).
  fold r w1 in Hwf', A1, A2. rewrite Hnone in A1, A2. simpl in A1, A2.
  assert (NoDup (rendered r (exec env w1 acts))) as Hnd.
  { rewrite (no_binds_no_signals r _ Hwf' A2). constructor. }
  destruct (run_exactly_once env dom cb w acts Hwf Hnd) as (_&E1&E2&E3).
  fold r w1 in E1, E2, E3. rewrite Hnone in E1. simpl in E1.
  assert (signals r (exec env w1 acts) = 0) as Hs.
  { unfold signals. by rewrite (no_binds_no_signals r _ Hwf' A2). }
  rewrite Hs in E1. rewrite E1 in E2, E3. simpl in E2, E3.
  split_and!; try done.
  - rewrite Hw1, (onTagDone_at_one _ _ _ Hrun eq_refl). simpl.
    by rewrite <- app_assoc.
  - rewrite Hw1. by destruct (onTagDone_fields r w0) as (_&_&->&_).
  - rewrite Hw1. unfold cnt. rewrite (onTagDone_runs _ _ _ Hrun). simpl.
    rewrite list_lookup_insert_eq; [done|]. by eapply lookup_lt_Some.
Qed.

Lemma no_tags_completes_at_once_witness :
  wf (init plainPage) /\
  matches (init plainPage) (rootOf None (init plainPage)) = [] /\
  fires 0 (exec laterEnv (parse laterEnv None (Some 7%nat) (init plainPage))
             [Expire 0%nat]) = 1.
Proof.
  assert (wf (init plainPage)) as Hwf by by apply wf_fresh.
  assert (matches (init plainPage) (rootOf None (init plainPage)) = []) as Hm
    by reflexivity.
  split_and!; [exact Hwf|exact Hm|].
  pose proof (no_tags_completes_at_once laterEnv None (Some 7%nat) (init plainPage)
                [Expire 0%nat] Hwf Hm) as H.
  destruct H as (_&_&_&H&_). exact H.
Defined.

(** C6, as the code has it.  The registry holds the one descriptor for
    [like], without [xmlns]; the subtree holds two [fb:like] elements and
    a [span].  [parse] finds the two elements, issues two increments and
    two binds; when no handler completes before the scan ends the
    counter stands at 3 there; and once both handlers have completed,
    each once, the counter is 0 and the callback has been invoked
    exactly once.  This holds whatever the collaborators do inside the
    calls. *)
Theorem two_likes env f acts :
  let w := likeOnly page in
  let ws := parse_scan env (Some container) (Some f) w in
  let w' := exec env (parse env (Some container) (Some f) w) acts in
  matches w container = [likeA; likeB] /\
  issued 0 ws = 2 /\
  cnt 0 ws + signals 0 ws = 3 /\
  (rendered 0 ws = [] -> cnt 0 ws = 3) /\
  (NoDup (rendered 0 w') -> signals 0 w' = 2 ->
   cnt 0 w' = 0 /\ fires 0 w' = 1 /\ occurrences (isCallback 0) w' = 1%nat).
Proof.
  intros w ws w'.
  assert (wf w) as Hwf by by apply wf_fresh.
  destruct (parse_scan_spec env (Some container) (Some f) w Hwf)
    as (_&_&_&_&_&C1&C2&_).
  change (length (runs w)) with 0%nat in C1, C2. fold ws in C1, C2.
  change (Z.of_nat (length (matches w (rootOf (Some container) w)))) with 2 in C1, C2.
  split_and!; try done.
  - intros Hr. unfold credit, signals in C1. rewrite Hr in C1. simpl in C1. lia.
  - intros Hnd Hs.
    destruct (run_once_by_signals env (Some container) (Some f) w acts
                Hwf Hnd) as (_&E1&E2&E3).
    change (length (runs w)) with 0%nat in E1, E2, E3. fold w' in E1, E2, E3.
    change (Z.of_nat (length (matches w (rootOf (Some container) w)))) with 2
      in E1, E2, E3.
    rewrite Hs in E1, E2, E3. simpl in E2, E3. split_and!; [lia|done|lia].
Qed.

(** C6 as stated does not hold when the handlers complete inside
    [process()]: both elements are bound and complete and the callback
    runs once, but the counter goes 2, 1, 2, 1, 0 and is never 3. *)
Lemma two_likes_at_once_never_three :
  let w' := parse atOnceEnv (Some container) (Some 7%nat) (likeOnly page) in
  counterValues 0 w' = [2; 1; 2; 1; 0] /\
  ~ In 3 (counterValues 0 w') /\
  instances w' =
    [ {| h_class := "FB.XFBML.Like"; h_dom := 11%nat |};
      {| h_class := "FB.XFBML.Like"; h_dom := 12%nat |} ] /\
  rendered 0 w' = [0%nat; 1%nat] /\
  occurrences (isCallback 0) w' = 1%nat.
Proof.
  vm_compute. split_and!; try done. intros H. repeat destruct H as [H|H]; done.
Qed.

(** C7, as the code has it.  [parse] writes the registry: it replaces
    every descriptor by its defaulted form, that is, it sets a missing or
    empty [xmlns] to ['fb'] and changes nothing else.  Over any sequence
    of calls and callbacks every descriptor stays at its index with its
    [localName] and [className], and with its [xmlns] unless that was
    missing and has become ['fb']; [registerTag] only appends. *)
Theorem registry_entries_kept env dom cb ti w acts :
  wf w ->
  _tagInfos (parse env dom cb w) = map defaultXmlns (_tagInfos w) /\
  _tagInfos (registerTag ti w) = _tagInfos w ++ [ti] /\
  (forall i d, _tagInfos w !! i = Some d ->
     exists d', _tagInfos (exec env w acts) !! i = Some d' /\
       localName d' = localName d /\ className d' = className d /\
       (xmlns d' = xmlns d \/ (noXmlns d = true /\ xmlns d' = Some "fb"))).
Proof.
  intros Hwf. split_and!.
  - by destruct (parse_spec env dom cb w Hwf) as (_&_&->&_).
  - done.
  - intros i d Hd. exact (exec_registry env acts w Hwf i d Hd).
Qed.

Lemma registry_entries_kept_witness :
  wf (init page) /\
  _tagInfos (parse laterEnv None None (init page)) =
    map defaultXmlns (_tagInfos (init page)).
Proof.
  assert (wf (init page)) as Hwf by by apply wf_fresh.
  split; [exact Hwf|].
  pose proof (registry_entries_kept laterEnv None None (baseTag "like" "FB.XFBML.Like")
                (init page) [] Hwf) as H.
  destruct H as (H&_). exact H.
Defined.

(** C7 as stated does not hold: the first [parse] of a page writes the
    [xmlns] field of every descriptor of the base table. *)
Lemma parse_writes_xmlns :
  xmlns <$> _tagInfos (init page) !! 3%nat = Some None /\
  xmlns <$> _tagInfos (parse laterEnv None None (init page)) !! 3%nat = Some (Some "fb") /\
  _tagInfos (parse laterEnv None None (init page)) <> _tagInfos (init page).
Proof. vm_compute. split_and!; done. Qed.



(** *** The tree *)

Lemma Node_induction (P : Node -> Prop) :
  (forall i ns t ks, Forall P ks -> P (mkNode i ns t ks)) -> forall n, P n.
Proof.
  intros H. fix IH 1. intros [i ns t ks]. apply H.
  induction ks as [|k ks IHks]; constructor; [apply IH|apply IHks].
Qed.

Lemma nodeAt_eq i j ns t ks :
  nodeAt i (mkNode j ns t ks) =
  if Nat.eqb j i then Some (mkNode j ns t ks) else firstAt i ks.
Proof.
  simpl. destruct (Nat.eqb j i); [done|].
  induction ks as [|k ks IH]; simpl; [done|]. by rewrite IH.
Qed.

Lemma setChildren_eq target ks i ns t old :
  setChildren target ks (mkNode i ns t old) =
  if Nat.eqb i target then mkNode i ns t ks
  else mkNode i ns t (map (setChildren target ks) old).
Proof.
  simpl. by destruct (Nat.eqb i target).
Qed.

(** An assignment to [innerHTML] of an element that is not in the tree
    leaves the tree as it is. *)
Lemma setChildren_absent i ks n :
  nodeAt i n = None -> setChildren i ks n = n.
Proof.
  induction n as [j ns t old IH] using Node_induction.
  rewrite nodeAt_eq, setChildren_eq. destruct (Nat.eqb j i); [done|].
  intros H. f_equal.
  induction IH as [|k old Hk _ IHold]; simpl in *; [done|].
  destruct (nodeAt i k) eqn:E; [done|]. by rewrite Hk, IHold.
Qed.

(** In a tree that holds the element, the element has the new children
    afterwards, and is otherwise the same. *)
Lemma nodeAt_setChildren i ks n x :
  nodeAt i n = Some x ->
  nodeAt i (setChildren i ks n) = Some (withChildren ks x).
Proof.
  induction n as [j ns t old IH] using Node_induction.
  rewrite nodeAt_eq, setChildren_eq. destruct (Nat.eqb j i) eqn:Ej.
  - intros [= <-]. by rewrite nodeAt_eq, Ej.
  - rewrite nodeAt_eq, Ej.
    induction IH as [|k old Hk _ IHold]; simpl; [done|].
    destruct (nodeAt i k) as [y|] eqn:E.
    + intros [= <-]. by rewrite (Hk eq_refl).
    + intros H. rewrite (setChildren_absent i ks k E), E. by apply IHold.
Qed.

Lemma eachTagInfo_document env dom r i w :
  (r < length (runs w))%nat ->
  document (eachTagInfo env dom r i w) = document w /\
  (r < length (runs (eachTagInfo env dom r i w)))%nat.
Proof.
  intros Hr. unfold eachTagInfo. destruct (_tagInfos w !! i) as [ti|]; [|done].
  set (w1 := with_tagInfos _ w). set (doms := _getDomElements _ _ _ _).
  assert (r < length (runs w1))%nat as Hr1 by done.
  pose proof (bindAll_safe env (defaultXmlns ti) r doms w1 Hr1) as HS.
  destruct (safe_frame _ _ HS) as [HSt _].
  by rewrite (still_document _ _ HSt), (Still_length _ _ HSt).
Qed.

(** [parse] does not touch the page. *)
Lemma parse_document env dom cb w : document (parse env dom cb w) = document w.
Proof.
  unfold parse.
  destruct (onTagDone_fields (length (runs w))
              (setTimeout (length (runs w)) (parse_scan env dom cb w)))
    as (_&_&_&_&_&_&->&_).
  simpl. unfold parse_scan, scan.
  generalize (seq 0 (length (_tagInfos (newRun cb w)))). intros l.
  assert (length (runs w) < length (runs (newRun cb w)))%nat as Hr.
  { simpl. rewrite length_app. simpl. lia. }
  change (document w) with (document (newRun cb w)).
  revert Hr. generalize (newRun cb w). generalize (length (runs w)). intros r.
  induction l as [|i l IH]; intros v Hr; simpl; [done|].
  destruct (eachTagInfo_document env (rootOf dom w) r i v Hr) as [Hd Hr'].
  by rewrite IH, Hd.
Qed.

(** C9. [set] puts the parsed markup in the place of the element's
    children, and then does what [parse(element, callback)] does: its
    result is that of [parse] on the element with the new children, in
    the page in which the element has been given them.  When [set] has
    returned, the element of the page (below [document.documentElement]
    and below [document.body], wherever it is) has the parsed markup as
    its children and is otherwise as it was; a tree that does not hold
    the element is as it was; and nothing else of the state was written
    before [parse] began. *)
Theorem set_is_parse_after_innerHTML env dom markup cb w :
  let kids := parseMarkup env markup in
  let element := withChildren kids dom in
  let w1 := with_document (setInnerHTML (nid dom) kids (document w)) w in
  let w' := set env dom markup cb w in
  w' = parse env (Some element) cb w1 /\
  childNodes element = kids /\
  (forall x, nodeAt (nid dom) (documentElement (document w)) = Some x ->
     nodeAt (nid dom) (documentElement (document w')) = Some (withChildren kids x)) /\
  (forall x, nodeAt (nid dom) (body (document w)) = Some x ->
     nodeAt (nid dom) (body (document w')) = Some (withChildren kids x)) /\
  (nodeAt (nid dom) (body (document w)) = None ->
     body (document w') = body (document w)) /\
  namespaces (document w') = namespaces (document w) /\
  browserType (document w') = browserType (document w) /\
  with_document (document w) w1 = w.
Proof.
  intros kids element w1 w'.
  assert (w' = parse env (Some element) cb w1) as Hw'.
  { unfold w', set. fold kids w1. f_equal. f_equal.
    destruct dom as [i ns t old]. rewrite setChildren_eq. simpl.
    by rewrite Nat.eqb_refl. }
  assert (document w' = setInnerHTML (nid dom) kids (document w)) as Hd.
  { by rewrite Hw', parse_document. }
  rewrite Hd. split_and!; try done.
  - intros x Hx. by apply nodeAt_setChildren.
  - intros x Hx. by apply nodeAt_setChildren.
  - intros Hx. by apply setChildren_absent.
  - by destruct w.
Qed.

(** On the page of the example, [set] on the container: afterwards the
    container in the page holds the one [fb:name] element of the markup
    and neither of the two [fb:like] elements it held. *)
Lemma set_replaces_the_content :
  let w' := set markupEnv container "<fb:name uid=4></fb:name>" None (init page) in
  childNodes <$> nodeAt 10 (body (document (init page))) = Some [likeA; other; likeB] /\
  childNodes <$> nodeAt 10 (body (document w')) = Some [mkNode 20 xhtml "fb:name" []] /\
  issued 0 w' = 1.
Proof. vm_compute. done. Qed.

(** C10, as the code has it.  Whatever the handlers do, the counter of a
    run is the number of elements found minus the signals delivered to
    it, so extra signals take it below zero; and after the scan the
    callback and the global event run at most once more, because from
    then on the counter only goes down.  If no subscription was called
    back twice while the scan was running, they run at most once in the
    whole run, however many signals arrive afterwards. *)
Theorem at_most_once_after_the_scan env dom cb w acts :
  wf w ->
  let r := length (runs w) in
  let ws := parse_scan env dom cb w in
  let w' := exec env (parse env dom cb w) acts in
  cnt r w' = Z.of_nat (length (matches w (rootOf dom w))) - signals r w' /\
  fires r w' <= fires r ws + 1 /\
  (occurrences (isCallback r) w' <= occurrences (isCallback r) ws + 1)%nat /\
  (NoDup (rendered r ws) ->
   fires r w' <= 1 /\ (occurrences (isCallback r) w' <= 1)%nat).
Proof.
  intros Hwf r ws w'.
  destruct (run_accounting env dom cb w acts Hwf) as (_&Hwf'&HG&A1&_&A3&A4).
  fold r ws w' in Hwf', HG, A1, A3, A4.
  destruct (parse_scan_spec env dom cb w Hwf) as (HS&_&_&_&_&_&_&C3&_&_&C4).
  fold r ws in HS, C3, C4.
  assert (wf ws) as Hwfs by by apply HS.
  assert (fires r w' <= fires r ws + 1) as Hf.
  { unfold potential in A3.
    destruct (Z.ltb_spec 0 (cnt r w')), (Z.ltb_spec 0 (cnt r ws)); lia. }
  assert (provided r ws = provided r w') as Hp.
  { unfold provided. rewrite A4, C4, list_lookup_middle; [done|]. by rewrite runs_length. }
  pose proof (wf_called _ Hwf' r) as K'. pose proof (wf_called _ Hwfs r) as Ks.
  rewrite <- Hp in K'. unfold fires in *.
  split_and!.
  - unfold credit in A1. lia.
  - done.
  - destruct (provided r ws); lia.
  - intros Hnd. specialize (C3 Hnd). unfold potential, fires in C3, A3.
    assert (Z.of_nat (occurrences (isFire r) w') <= 1).
    { destruct (Z.ltb_spec 0 (cnt r w')); lia. }
    destruct (provided r ws); lia.
Qed.

Lemma at_most_once_after_the_scan_witness :
  wf (likeOnly page) /\
  fires 0 (exec twiceEnv (parse twiceEnv None (Some 7%nat) (likeOnly page))
             [Render 0%nat; Render 1%nat])
  <= fires 0 (parse_scan twiceEnv None (Some 7%nat) (likeOnly page)) + 1.
Proof.
  assert (wf (likeOnly page)) as Hwf by by apply wf_fresh.
  split; [exact Hwf|].
  pose proof (at_most_once_after_the_scan twiceEnv None (Some 7%nat) (likeOnly page)
                [Render 0%nat; Render 1%nat] Hwf) as H.
  destruct H as (_&H&_). exact H.
Defined.

(** C10 as stated does not hold: the first handler fires its render
    event twice inside [process()], while the scan is still running.  The
    counter goes 2, 1, 0, and the callback and the event run; then the
    loop increments it to 1 for the second element, whose completion
    takes it to 0 again, and they run a second time. *)
Lemma callback_twice_in_one_run :
  let w' := parse twiceEnv (Some container) (Some 7%nat) (likeOnly page) in
  counterValues 0 w' = [2; 1; 0; 1; 0; -1] /\
  occurrences (isCallback 0) w' = 2%nat /\
  occurrences (isFire 0) w' = 2%nat.
Proof. vm_compute. done. Qed.

(** * More of the code *)

#[local] Instance Inert_preorder : PreOrder Inert.
Proof.
  split.
  - intros w. by split.
  - intros w1 w2 w3 [] []. split; congruence.
Qed.

#[local] Instance Bindings_preorder : PreOrder Bindings.
Proof.
  split.
  - intros w. split; [reflexivity|done..].
  - intros w1 w2 w3 [] []. split; [by etrans|auto..].
Qed.

Section Bindings.

Context (env : Env).

Lemma Bindings_same w w' :
  instances w' = instances w -> _element w' = _element w -> Bindings w w'.
Proof.
  intros Hi He. split.
  - by rewrite Hi.
  - intros i. unfold bound. by rewrite He.
  - unfold consistent. by rewrite Hi, He.
Qed.

Lemma Inert_Bindings w w' : Inert w w' -> Bindings w w'.
Proof. intros [Hi He _]. by apply Bindings_same. Qed.

Lemma onTagDone_inert r w : Inert w (onTagDone r w).
Proof. destruct (onTagDone_fields r w) as (_&?&_&?&?&_). by split. Qed.

Lemma increment_inert r w : Inert w (increment r w).
Proof. unfold increment. by destruct (runs w !! r). Qed.

Lemma render_inert t w : Inert w (render t w).
Proof.
  unfold render. destruct (subscribers w !! t) as [s|]; [|reflexivity].
  etrans; [|apply onTagDone_inert]. by split.
Qed.

Lemma process_inert h w : Inert w (process env h w).
Proof.
  unfold process. set (w1 := emit _ w). assert (Inert w w1) as H1 by by split.
  generalize (render_now env w1 h). intros l. revert H1. generalize w1. clear w1.
  induction l as [|t l IH]; intros w1 H1; simpl; [done|].
  apply IH. etrans; [apply H1|apply render_inert].
Qed.

Lemma subscribe_inert h r w : Inert w (subscribe h r w).
Proof. by split. Qed.

(** The one place where a handler object is made. *)
Lemma processor_bindings p w : Bindings w (processor env p w).
Proof.
  unfold processor. set (x := {| h_class := _; h_dom := _ |}).
  set (w1 := with_instance (proc_dom p) x w).
  assert (Bindings w w1) as H1.
  { split.
    - by apply prefix_app_r.
    - intros i [h Hh]. unfold bound. simpl.
      destruct (decide (i = proc_dom p)) as [->|Hne].
      + rewrite lookup_insert_eq. by eexists.
      + rewrite lookup_insert_ne by done. by eexists.
    - intros Hc i h. simpl.
      destruct (decide (i = proc_dom p)) as [->|Hne].
      + rewrite lookup_insert_eq. intros [= <-]. exists x.
        split; [|done]. by apply list_lookup_middle.
      + rewrite lookup_insert_ne by done. intros Hh.
        destruct (Hc i h Hh) as (y & Hy & Hd). exists y.
        split; [|done]. by apply lookup_app_l_Some. }
  etrans; [apply H1|]. apply Inert_Bindings.
  etrans; [|apply process_inert]. etrans; [|apply subscribe_inert]. by split.
Qed.

Lemma processor_loading p w : loading (processor env p w) = loading w.
Proof.
  unfold processor.
  by rewrite (inert_loading _ _ (process_inert _ _)).
Qed.

Lemma Loader_use_bindings c p w : Bindings w (Loader_use env c p w).
Proof.
  unfold Loader_use. destruct (use_now env _ c).
  - etrans; [|apply processor_bindings]. by apply Bindings_same.
  - by apply Bindings_same.
Qed.

Lemma _processElement_bindings d ti r w : Bindings w (_processElement env d ti r w).
Proof.
  unfold _processElement. destruct (_element w !! nid d).
  - apply Inert_Bindings. etrans; [|apply process_inert]. apply subscribe_inert.
  - destruct (CLASSES env w _).
    + apply processor_bindings.
    + apply Loader_use_bindings.
Qed.

(** ** Reasoning along the scan *)

(** What holds before the scan, survives a write of the registry and
    survives every bind of an element that [parse] finds, holds after the
    scan; and what a bind establishes for its element and later binds
    keep, holds after the scan for every element found. *)
Lemma scan_induction (P : World -> Prop) (B : Node -> World -> Prop) dom r w0 :
  (r < length (runs w0))%nat ->
  P w0 ->
  (forall x w, P w -> P (with_tagInfos x w)) ->
  (forall d x w, B d w -> B d (with_tagInfos x w)) ->
  (forall d ti w, In d (matches w0 dom) -> (r < length (runs w))%nat -> P w ->
     P (_processElement env d ti r (increment r w)) /\
     B d (_processElement env d ti r (increment r w)) /\
     forall d', B d' w -> B d' (_processElement env d ti r (increment r w))) ->
  P (scan env dom r w0) /\
  forall d, In d (matches w0 dom) -> B d (scan env dom r w0).
Proof.
  intros Hr HP Htag HtagB Hbind. unfold scan.
  set (M := matches w0 dom) in *.
  assert (forall doms ti w,
            (forall d, In d doms -> In d M) -> (r < length (runs w))%nat -> P w ->
            P (bindAll env ti r doms w) /\
            (forall d, In d doms -> B d (bindAll env ti r doms w)) /\
            (forall d', B d' w -> B d' (bindAll env ti r doms w)) /\
            (r < length (runs (bindAll env ti r doms w)))%nat /\
            _tagInfos (bindAll env ti r doms w) = _tagInfos w /\
            document (bindAll env ti r doms w) = document w) as HbindAll.
  { unfold bindAll. induction doms as [|d doms IH]; intros ti w Hin Hrw HPw; simpl.
    - split_and!; try done; by intros d [].
    - destruct (Hbind d ti w (Hin d (or_introl eq_refl)) Hrw HPw) as (H1&H2&H3).
      pose proof (bind_safe env d ti r w Hrw) as [_ _ [HS Hti]].
      set (w1 := _processElement env d ti r (increment r w)) in *.
      assert (r < length (runs w1))%nat as Hr1 by by rewrite (Still_length _ _ HS).
      destruct (IH ti w1 (fun d' H => Hin d' (or_intror H)) Hr1 H1) as (I1&I2&I3&I4&I5&I6).
      split_and!; try done.
      + intros d' [<-|Hd']; [by apply I3|by apply I2].
      + intros d' Hd'. by apply I3, H3.
      + by rewrite I5.
      + by rewrite I6, (still_document _ _ HS). }
  assert (forall rest done w,
            _tagInfos w = done ++ rest -> document w = document w0 ->
            (forall d, In d (flat_map (found (document w0) dom) rest) -> In d M) ->
            (r < length (runs w))%nat -> P w ->
            let w' := fold_left (fun w' i => eachTagInfo env dom r i w')
                        (seq (length done) (length rest)) w in
            P w' /\
            (forall d, In d (flat_map (found (document w0) dom) rest) -> B d w') /\
            (forall d', B d' w -> B d' w')) as Hfold.
  { induction rest as [|ti rest IH]; intros done w Hti Hdoc Hin Hrw HPw; simpl.
    - split_and!; try done; by intros d [].
    - unfold eachTagInfo at 2 4 6. rewrite Hti, list_lookup_middle by done.
      rewrite insert_app_r_alt, Nat.sub_diag by lia. simpl.
      set (wt := with_tagInfos _ w).
      fold (found (document w) dom ti). rewrite Hdoc.
      destruct (HbindAll (found (document w0) dom ti) (defaultXmlns ti) wt)
        as (I1&I2&I3&I4&I5&I6).
      { intros d Hd. apply Hin. simpl. apply in_or_app. by left. }
      { done. }
      { by apply Htag. }
      set (w1 := bindAll env (defaultXmlns ti) r (found (document w0) dom ti) wt) in *.
      specialize (IH (done ++ [defaultXmlns ti]) w1).
      rewrite length_app, Nat.add_1_r in IH.
      destruct IH as (J1&J2&J3); try done.
      + rewrite I5. unfold wt. simpl. by rewrite <- app_assoc.
      + by rewrite I6.
      + intros d Hd. apply Hin. simpl. apply in_or_app. by right.
      + split_and!; try done.
        * intros d Hd. simpl in Hd. apply in_app_or in Hd as [Hd|Hd].
          -- by apply J3, I2.
          -- by apply J2.
        * intros d' Hd'. by apply J3, I3, HtagB. }
  destruct (Hfold (_tagInfos w0) [] w0) as (K1&K2&_); try done.
Qed.

Lemma scan_bindings dom r w :
  (r < length (runs w))%nat -> Bindings w (scan env dom r w).
Proof.
  intros Hr.
  apply (scan_induction (fun w' => Bindings w w') (fun _ _ => True) dom r w Hr);
    [reflexivity| |done|].
  - intros x w' H. etrans; [apply H|]. by apply Bindings_same.
  - intros d ti w' _ _ H. split_and!; try done.
    etrans; [apply H|]. etrans; [|apply _processElement_bindings].
    apply Inert_Bindings, increment_inert.
Qed.

Lemma parse_bindings dom cb w : Bindings w (parse env dom cb w).
Proof.
  unfold parse, parse_scan.
  set (w0 := newRun cb w). set (w1 := scan env _ _ w0).
  assert (Bindings w w0) as H0 by by apply Bindings_same.
  assert (Bindings w0 w1) as H1.
  { apply scan_bindings. unfold w0. simpl. rewrite length_app. simpl. lia. }
  assert (Bindings w1 (setTimeout (length (runs w)) w1)) as H2 by by apply Bindings_same.
  etrans; [apply H0|]. etrans; [apply H1|]. etrans; [apply H2|].
  apply Inert_Bindings, onTagDone_inert.
Qed.

Lemma step_bindings a w : Bindings w (step env w a).
Proof.
  destruct a as [dom cb|dom markup cb|ti|k|t|k]; simpl.
  - apply parse_bindings.
  - unfold set. set (w1 := with_document _ w).
    assert (Bindings w w1) as H1 by by apply Bindings_same.
    etrans; [apply H1|apply parse_bindings].
  - by apply Bindings_same.
  - unfold loaded. destruct (loading w !! k) as [[p|]|]; [|reflexivity..].
    set (w1 := with_loading _ w).
    assert (Bindings w w1) as H1 by by apply Bindings_same.
    etrans; [apply H1|apply processor_bindings].
  - apply Inert_Bindings, render_inert.
  - unfold expire. destruct (timers w !! k) as [[r|]|]; [|reflexivity..]. simpl.
    destruct (runs w !! r) as [run|]; [destruct (count run >? 0)|];
      by apply Bindings_same.
Qed.

Lemma exec_bindings l : forall w, Bindings w (exec env w l).
Proof.
  unfold exec. induction l as [|a l IH]; intros w; simpl; [reflexivity|].
  etrans; [apply step_bindings|apply IH].
Qed.

(** *** An element that has its handler *)

Lemma settled_same i h w w' :
  _element w' = _element w -> loading w' = loading w ->
  settled i h w -> settled i h w'.
Proof. intros He Hl. unfold settled. by rewrite He, Hl. Qed.

Lemma settled_inert i h w w' : Inert w w' -> settled i h w -> settled i h w'.
Proof. intros [_ He Hl]. by apply settled_same. Qed.

(** A [processor] for another element writes [_element] of that other
    element only. *)
Lemma processor_settled i h p w :
  proc_dom p <> i -> settled i h w -> settled i h (processor env p w).
Proof.
  intros Hne [He Hl]. unfold processor.
  set (x := {| h_class := _; h_dom := _ |}).
  set (w1 := with_instance (proc_dom p) x w).
  assert (settled i h w1) as H1.
  { split; [|done]. simpl. by rewrite lookup_insert_ne. }
  eapply settled_inert; [|exact H1].
  etrans; [|apply process_inert]. etrans; [|apply subscribe_inert]. by split.
Qed.

Lemma Loader_use_settled i h c p w :
  proc_dom p <> i -> settled i h w -> settled i h (Loader_use env c p w).
Proof.
  intros Hne H. unfold Loader_use. destruct (use_now env _ c).
  - apply processor_settled; [done|]. by apply (settled_same i h w).
  - destruct H as [He Hl]. split; [done|]. simpl. intros k q Hq.
    apply lookup_app_Some in Hq as [Hq|[_ Hq]]; [by eapply Hl|].
    apply list_lookup_singleton_Some in Hq as [_ [= <-]]. done.
Qed.

(** A bind of the element itself takes the branch that reuses the
    handler; a bind of another element does not touch it. *)
Lemma _processElement_settled i h d ti r w :
  settled i h w -> settled i h (_processElement env d ti r w).
Proof.
  intros H. unfold _processElement.
  destruct (_element w !! nid d) as [e|] eqn:Hd.
  - eapply settled_inert; [|exact H]. etrans; [|apply process_inert]. apply subscribe_inert.
  - assert (nid d <> i) as Hne.
    { intros Heq. rewrite Heq in Hd. destruct H as [He _]. congruence. }
    destruct (CLASSES env w _).
    + by apply processor_settled.
    + by apply Loader_use_settled.
Qed.

Lemma parse_settled i h dom cb w : settled i h w -> settled i h (parse env dom cb w).
Proof.
  intros H. unfold parse, parse_scan.
  set (w0 := newRun cb w). set (w1 := scan env _ _ w0).
  assert (settled i h w0) as H0 by by apply (settled_same i h w).
  assert (settled i h w1) as H1.
  { assert (length (runs w) < length (runs w0))%nat as Hr.
    { unfold w0. simpl. rewrite length_app. simpl. lia. }
    apply (scan_induction (settled i h) (fun _ _ => True) (rootOf dom w)
             (length (runs w)) w0 Hr); [done| |done|].
    - intros x v Hv. by apply (settled_same i h v).
    - intros d ti v _ _ Hv. split_and!; try done.
      apply _processElement_settled. eapply settled_inert; [apply increment_inert|done]. }
  eapply settled_inert; [apply onTagDone_inert|]. by apply (settled_same i h w1).
Qed.

Lemma step_settled i h a w : settled i h w -> settled i h (step env w a).
Proof.
  intros H. destruct a as [dom cb|dom markup cb|ti|k|t|k]; simpl.
  - by apply parse_settled.
  - unfold set. apply parse_settled. by apply (settled_same i h w).
  - by apply (settled_same i h w).
  - unfold loaded. destruct (loading w !! k) as [[p|]|] eqn:Hk; [|done..].
    destruct H as [He Hl]. apply processor_settled; [by eapply Hl|].
    split; [done|]. simpl. intros k' q Hq.
    apply list_lookup_insert_Some in Hq as [(_&?&_)|[_ Hq]]; [done|by eapply Hl].
  - eapply settled_inert; [apply render_inert|done].
  - unfold expire. destruct (timers w !! k) as [[r|]|]; [|done..]. simpl.
    destruct (runs w !! r) as [run|]; [destruct (count run >? 0)|];
      by apply (settled_same i h w).
Qed.

Lemma exec_settled i h l : forall w, settled i h w -> settled i h (exec env w l).
Proof.
  unfold exec. induction l as [|a l IH]; intros w H; simpl; [done|].
  by apply IH, step_settled.
Qed.


End Bindings.

(** ** Bindings *)

(** X1. An element that carries a handler keeps carrying one, whatever
    the page and the collaborators do: the only write of [dom._element]
    is [dom._element = new fn(dom)].  And unless a [processor] closure is
    still waiting for that element in the loader's queue, it keeps the
    very handler it has: every later [parse] and [set] takes the branch
    that reuses it, and queues nothing for the element. *)
Theorem bindings_are_never_removed env w acts i h :
  _element w !! i = Some h ->
  bound i (exec env w acts) /\
  ((forall k p, loading w !! k = Some (Some p) -> proc_dom p <> i) ->
   _element (exec env w acts) !! i = Some h /\
   forall k p, loading (exec env w acts) !! k = Some (Some p) -> proc_dom p <> i).
Proof.
  intros Hi. split.
  - apply (bindings_bound _ _ (exec_bindings env acts w)). by exists h.
  - intros Hl. by apply (exec_settled env i h acts w).
Qed.

Lemma bindings_are_never_removed_witness :
  _element (parse laterEnv None None (likeOnly page)) !! 11%nat = Some 0%nat /\
  _element (exec laterEnv (parse laterEnv None None (likeOnly page))
              [Call_parse None None; Render 0%nat;
               Call_set container "<fb:name uid=4></fb:name>" None;
               Call_parse None (Some 7%nat)]) !! 11%nat = Some 0%nat.
Proof.
  assert (_element (parse laterEnv None None (likeOnly page)) !! 11%nat = Some 0%nat)
    as Hi by (vm_compute; reflexivity).
  split; [exact Hi|].
  destruct (bindings_are_never_removed laterEnv (parse laterEnv None None (likeOnly page))
              [Call_parse None None; Render 0%nat;
               Call_set container "<fb:name uid=4></fb:name>" None;
               Call_parse None (Some 7%nat)] 11%nat 0%nat Hi) as [_ H].
  apply H. intros k p Hk. vm_compute in Hk. by destruct k.
Defined.

(** X2. In every state the page can reach, [dom._element] of an element
    is a handler object that [new fn(dom)] made for that very element,
    also after the element has been given a second handler. *)
Theorem bindings_are_consistent env w acts :
  consistent w ->
  forall i h, _element (exec env w acts) !! i = Some h ->
    exists x, instances (exec env w acts) !! h = Some x /\ h_dom x = i.
Proof. intros Hc. by apply (bindings_consistent _ _ (exec_bindings env acts w)). Qed.

Lemma bindings_are_consistent_witness :
  consistent (likeOnly page) /\
  exists x,
    instances (exec lazyEnv (likeOnly page)
                 [Call_parse None None; Call_parse None None; Loaded 0%nat; Loaded 2%nat])
      !! 1%nat = Some x /\ h_dom x = 11%nat.
Proof.
  assert (consistent (likeOnly page)) as Hc.
  { intros i h H. vm_compute in H. discriminate H. }
  split; [exact Hc|].
  apply (bindings_are_consistent lazyEnv (likeOnly page)
           [Call_parse None None; Call_parse None None; Loaded 0%nat; Loaded 2%nat]
           Hc 11%nat 1%nat).
  vm_compute. reflexivity.
Defined.

(** X3. A pass over elements that all carry a handler already makes no
    handler object, writes no [dom._element] and asks the loader for
    nothing: every element found gets the new [onTagDone] subscribed on
    the handler it has. *)
Theorem reparse_reuses_the_handlers env dom cb w :
  wf w ->
  (forall d, In d (matches w (rootOf dom w)) -> bound (nid d) w) ->
  let r := length (runs w) in
  let w' := parse env dom cb w in
  instances w' = instances w /\
  _element w' = _element w /\
  loading w' = loading w /\
  subscribed r w' = length (matches w (rootOf dom w)).
Proof.
  intros Hwf Hb r w'.
  assert (Inert w w') as HI.
  { unfold w', parse, parse_scan. fold r.
    set (w0 := newRun cb w).
    assert (Inert w w0) as H0 by by split.
    assert (r < length (runs w0))%nat as Hr0.
    { unfold w0. simpl. rewrite length_app. simpl. lia. }
    destruct (scan_induction env (fun v => Inert w0 v) (fun _ _ => True)
                (rootOf dom w) r w0 Hr0) as [H1 _]; try done.
    - intros x v H. etrans; [apply H|]. by split.
    - intros d ti v Hd _ H. split_and!; try done.
      etrans; [apply H|].
      pose proof (increment_inert r v) as Hinc.
      etrans; [apply Hinc|].
      unfold _processElement.
      destruct (Hb d Hd) as [h Hh].
      rewrite (inert_element _ _ Hinc), (inert_element _ _ H). simpl. rewrite Hh.
      etrans; [|apply process_inert]. by split.
    - set (w1 := scan env _ _ w0) in *.
      assert (Inert w1 (setTimeout r w1)) as H2 by by split.
      etrans; [apply H0|]. etrans; [apply H1|]. etrans; [apply H2|].
      apply onTagDone_inert. }
  destruct HI as [H1 H2 H3]. split_and!; try done.
  destruct (parse_spec env dom cb w Hwf) as (_&_&_&_&_&_&Hi&_).
  fold r w' in Hi.
  destruct (fresh_run r w Hwf) as (_&_&Hq&_); [done|].
  unfold issued, queued in *. rewrite H3 in Hi. lia.
Qed.

Lemma reparse_reuses_the_handlers_witness :
  wf (parse laterEnv None None (likeOnly page)) /\
  (forall d,
     In d (matches (parse laterEnv None None (likeOnly page))
             (rootOf None (parse laterEnv None None (likeOnly page)))) ->
     bound (nid d) (parse laterEnv None None (likeOnly page))) /\
  instances (parse laterEnv None (Some 7%nat) (parse laterEnv None None (likeOnly page))) =
    instances (parse laterEnv None None (likeOnly page)).
Proof.
  assert (wf (parse laterEnv None None (likeOnly page))) as Hwf.
  { assert (wf (likeOnly page)) as H0 by by apply wf_fresh.
    destruct (parse_spec laterEnv None None (likeOnly page) H0) as ([H _]&_).
    by apply H. }
  assert (forall d,
     In d (matches (parse laterEnv None None (likeOnly page))
             (rootOf None (parse laterEnv None None (likeOnly page)))) ->
     bound (nid d) (parse laterEnv None None (likeOnly page))) as Hb.
  { intros d Hd. vm_compute in Hd. destruct Hd as [<-|[<-|[]]]; vm_compute; by eexists. }
  split_and!; [exact Hwf|exact Hb|].
  apply (reparse_reuses_the_handlers laterEnv None (Some 7%nat)
           (parse laterEnv None None (likeOnly page)) Hwf Hb).
Defined.



(** X5. When [FB.CLASSES] has every class asked for, every element that
    [parse] finds carries a handler when [parse] returns, and the loader
    has not been asked for anything. *)
Theorem loaded_class_binds_at_once env dom cb w :
  (forall v c, CLASSES env v c = true) ->
  let w' := parse env dom cb w in
  (forall d, In d (matches w (rootOf dom w)) -> bound (nid d) w') /\
  loading w' = loading w.
Proof.
  intros Hc w'. unfold w', parse, parse_scan.
  set (r := length (runs w)). set (w0 := newRun cb w).
  assert (r < length (runs w0))%nat as Hr0.
  { unfold w0. simpl. rewrite length_app. simpl. lia. }
  destruct (scan_induction env (fun v => loading v = loading w)
              (fun d v => bound (nid d) v) (rootOf dom w) r w0 Hr0) as [I1 I2];
    try done.
  - intros d ti v _ _ Hl.
    destruct (increment_inert r v) as [J1 J2 J3].
    set (v1 := increment r v) in *. split_and!.
    + unfold _processElement. destruct (_element v1 !! nid d).
      * rewrite (inert_loading _ _ (process_inert env _ _)). simpl. congruence.
      * rewrite Hc, processor_loading. congruence.
    + unfold _processElement. destruct (_element v1 !! nid d) as [h|] eqn:Hh.
      * unfold bound. rewrite (inert_element _ _ (process_inert env _ _)). simpl.
        by rewrite Hh.
      * rewrite Hc. unfold processor, bound.
        rewrite (inert_element _ _ (process_inert env _ _)). simpl.
        by rewrite lookup_insert_eq.
    + intros d' Hd'. apply (bindings_bound _ _ (_processElement_bindings env d ti r v1)).
      unfold bound in *. by rewrite J2.
  - set (w1 := scan env _ _ w0) in *.
    destruct (onTagDone_fields r (setTimeout r w1)) as (_&Hl&_&He&_).
    split; [|by rewrite Hl].
    intros d Hd. unfold bound. rewrite He. by apply I2.
Qed.

Lemma loaded_class_binds_at_once_witness :
  (forall v c, CLASSES laterEnv v c = true) /\
  bound 11 (parse laterEnv None None (likeOnly page)).
Proof.
  split; [done|].
  destruct (loaded_class_binds_at_once laterEnv None None (likeOnly page)
              (fun _ _ => eq_refl)) as [H _].
  apply (H likeA). vm_compute. by left.
Defined.

(** ** Counters *)

(** X6. Each [parse] call has its own counter: a completion signal
    takes one off the counter of the run whose [onTagDone] was subscribed,
    and leaves the counter of every other run as it is. *)
Theorem completion_signal_hits_one_counter t w :
  wf w ->
  forall r,
    cnt r (render t w) =
    cnt r w - (if isTokenOf r (subscribers w) t then 1 else 0).
Proof.
  intros Hwf r. destruct (render_acc r t w Hwf) as [A _ _].
  pose proof (render_signals r t w) as S. unfold credit in A. lia.
Qed.

Lemma completion_signal_hits_one_counter_witness :
  wf (exec laterEnv (likeOnly page) [Call_parse None None; Call_parse None None]) /\
  cnt 0 (render 2 (exec laterEnv (likeOnly page) [Call_parse None None; Call_parse None None]))
  = 2.
Proof.
  assert (wf (likeOnly page)) as H0 by by apply wf_fresh.
  assert (wf (exec laterEnv (likeOnly page) [Call_parse None None; Call_parse None None]))
    as Hwf.
  { by apply (exec_spec laterEnv [Call_parse None None; Call_parse None None]
                (likeOnly page) H0). }
  split; [exact Hwf|].
  refine (eq_trans (completion_signal_hits_one_counter 2 _ Hwf 0%nat) _).
  vm_compute. reflexivity.
Defined.

Lemma signals_mono r w w' : Grows w w' -> signals r w <= signals r w'.
Proof.
  intros [[l Hl] _ _]. unfold signals, rendered. rewrite Hl, omap_app, length_app. lia.
Qed.

(** X7. Once [parse] has returned, the counter of its run never goes up
    again, whatever is called or called back afterwards: [count++] only
    occurs inside the loop of that [parse] call. *)
Theorem counter_only_drains env w acts r :
  wf w -> (r < length (runs w))%nat ->
  cnt r (exec env w acts) <= cnt r w.
Proof.
  intros Hwf Hr. destruct (exec_spec env acts w Hwf) as [[_ HG] HA].
  destruct (HA r Hr) as [A _ _]. pose proof (signals_mono r _ _ HG).
  unfold credit in A. lia.
Qed.

Lemma counter_only_drains_witness :
  wf (parse laterEnv None None (likeOnly page)) /\
  (0 < length (runs (parse laterEnv None None (likeOnly page))))%nat /\
  cnt 0 (exec laterEnv (parse laterEnv None None (likeOnly page))
           [Call_parse None None; Render 0%nat; Render 0%nat; Render 3%nat])
  <= cnt 0 (parse laterEnv None None (likeOnly page)).
Proof.
  assert (wf (parse laterEnv None None (likeOnly page))) as Hwf.
  { assert (wf (likeOnly page)) as H0 by by apply wf_fresh.
    destruct (parse_spec laterEnv None None (likeOnly page) H0) as ([H _]&_).
    by apply H. }
  assert (0 < length (runs (parse laterEnv None None (likeOnly page))))%nat as Hr
    by (vm_compute; lia).
  split_and!; [exact Hwf|exact Hr|].
  apply (counter_only_drains laterEnv _
           [Call_parse None None; Render 0%nat; Render 0%nat; Render 3%nat] 0%nat Hwf Hr).
Defined.

(** X8. In every state the page can reach, the callback of a run has
    been invoked as often as the global event was fired for that run and
    as often as a decrement of its counter gave zero (never, when no
    callback was given), and the function invoked is the one that was
    passed to that call of [parse]. *)
Theorem callback_event_and_zero_go_together env d acts r :
  let w := exec env (init d) acts in
  occurrences (isZero r) w = occurrences (isFire r) w /\
  occurrences (isCallback r) w =
    (if provided r w then occurrences (isFire r) w else 0%nat) /\
  forall f, EvCallback r f ∈ trace w -> cb <$> runs w !! r = Some (Some f).
Proof.
  intros w. pose proof (wf_reachable env d acts) as Hwf. fold w in Hwf.
  split_and!; [apply (wf_zero _ Hwf)|apply (wf_called _ Hwf)|].
  intros f Hf. pose proof (wf_trace _ Hwf) as Htr. rewrite Forall_forall in Htr.
  specialize (Htr _ Hf). simpl in Htr. unfold callbacksOf in Htr.
  by rewrite <- list_lookup_fmap.
Qed.

(** ** The timer *)

(** X9. In every state the page can reach, a run has logged its
    diagnostic at most once. *)
Theorem at_most_one_diagnostic_per_run env d acts r :
  (occurrences (isLog r) (exec env (init d) acts) <= 1)%nat.
Proof. pose proof (wf_logged _ (wf_reachable env d acts) r). lia. Qed.

Lemma parse_timers env dom cb w :
  wf w ->
  timers (parse env dom cb w) = timers w ++ [Some (length (runs w))] /\
  forall r, occurrences (isLog r) (parse env dom cb w) = occurrences (isLog r) w.
Proof.
  intros Hwf. unfold parse, parse_scan.
  set (r0 := length (runs w)). set (w0 := newRun cb w).
  assert (wf w0) as Hwf0 by by apply (newRun_steps cb w).
  assert (r0 < length (runs w0))%nat as Hr0.
  { unfold w0. simpl. rewrite length_app. simpl. lia. }
  destruct (scan_spec env (rootOf dom w) r0 w0 Hwf0 Hr0) as ([_ _ HS]&_).
  set (w1 := scan env _ _ w0) in *.
  destruct (onTagDone_safe r0 (setTimeout r0 w1)) as [_ _ [HS2 _]].
  split.
  - rewrite (still_timers _ _ HS2). simpl. by rewrite (still_timers _ _ HS).
  - intros r. rewrite (still_logs _ _ HS2 r).
    transitivity (occurrences (isLog r) w1); [|apply (still_logs _ _ HS r)].
    unfold occurrences. simpl. rewrite List.filter_app. simpl. by rewrite app_nil_r.
Qed.

Lemma armed_snoc_other r r0 l :
  r <> r0 ->
  length (List.filter (isTimerOf r) (l ++ [Some r0])) = length (List.filter (isTimerOf r) l).
Proof.
  intros Hne. rewrite List.filter_app, length_app. simpl.
  destruct (Nat.eqb_spec r0 r); [congruence|]. simpl. lia.
Qed.

(** A run gets no second timer: what is armed or logged for it does not
    grow. *)
Lemma step_timers env a w r :
  wf w -> (r < length (runs w))%nat ->
  (armed r (step env w a) + occurrences (isLog r) (step env w a) <=
   armed r w + occurrences (isLog r) w)%nat.
Proof.
  intros Hwf Hr. destruct a as [dom cb|dom markup cb|ti|k|t|k]; simpl.
  - destruct (parse_timers env dom cb w Hwf) as [Ht Hl].
    unfold armed. rewrite Ht, Hl, armed_snoc_other by lia. lia.
  - unfold set. set (w1 := with_document _ w).
    assert (wf w1) as Hwf1 by by apply (with_document_steps _ w).
    destruct (parse_timers env (Some (setChildren (nid dom) (parseMarkup env markup) dom))
                cb w1 Hwf1) as [Ht Hl].
    unfold armed. rewrite Ht, Hl, armed_snoc_other by (simpl; lia). done.
  - done.
  - unfold loaded. destruct (loading w !! k) as [[p|]|] eqn:Hk; [|done..].
    assert (proc_run p < length (runs w))%nat as Hp.
    { pose proof (wf_loading _ Hwf) as H. rewrite Forall_forall in H.
      by apply (H (Some p)), list_elem_of_lookup_2 with k. }
    destruct (processor_safe env p (with_loading (<[k := None]> (loading w)) w) Hp)
      as [_ _ [HS _]].
    unfold armed. rewrite (still_timers _ _ HS), (still_logs _ _ HS r). done.
  - destruct (render_safe t w) as [_ _ [HS _]].
    unfold armed. rewrite (still_timers _ _ HS), (still_logs _ _ HS r). done.
  - unfold expire. destruct (timers w !! k) as [[r'|]|] eqn:Hk; [|done..].
    pose proof (disarm_armed k r' r w Hk) as Ha.
    set (w1 := with_timers (<[k := None]> (timers w)) w) in *.
    pose proof (wf_logged _ Hwf r) as Hlog.
    destruct (runs w1 !! r') as [run|]; [destruct (count run >? 0)|].
    + change (armed r (emit (EvLog r' (count run) (_renderTimeout w1)) w1))
        with (armed r w1).
      unfold occurrences. simpl. rewrite List.filter_app, length_app. simpl.
      change (length (List.filter (isLog r) (trace w))) with (occurrences (isLog r) w).
      destruct (Nat.eqb r' r); simpl; lia.
    + change (occurrences (isLog r) w1) with (occurrences (isLog r) w).
      destruct (Nat.eqb r' r); lia.
    + change (occurrences (isLog r) w1) with (occurrences (isLog r) w).
      destruct (Nat.eqb r' r); lia.
Qed.

Lemma exec_timers env l : forall w r,
  wf w -> (r < length (runs w))%nat ->
  (armed r (exec env w l) + occurrences (isLog r) (exec env w l) <=
   armed r w + occurrences (isLog r) w)%nat.
Proof.
  unfold exec. induction l as [|a l IH]; intros w r Hwf Hr; simpl; [done|].
  destruct (step_spec env a w Hwf) as [[Hwf1 HG] _].
  pose proof (step_timers env a w r Hwf Hr).
  pose proof (Grows_length _ _ HG).
  specialize (IH (step env w a) r (Hwf1 Hwf)). lia.
Qed.

(** X10. When the timer of a run fires after all the [n] elements found
    have completed, nothing is logged and the trace stays as it is, and
    no diagnostic is ever logged for that run. *)
Theorem no_diagnostic_when_all_completed env dom cb w before after k :
  wf w ->
  let r := length (runs w) in
  let n := Z.of_nat (length (matches w (rootOf dom w))) in
  let w1 := exec env (parse env dom cb w) before in
  let w2 := expire k w1 in
  let w3 := exec env w2 after in
  timers w1 !! k = Some (Some r) ->
  n <= signals r w1 ->
  trace w2 = trace w1 /\
  runs w2 = runs w1 /\
  occurrences (isLog r) w3 = 0%nat.
Proof.
  intros Hwf r n w1 w2 w3 Hk Hle.
  destruct (run_accounting env dom cb w before Hwf) as (_&Hwf1&_&C1&_).
  fold r n w1 in Hwf1, C1.
  destruct (disarm_wf k r w1 Hk Hwf1) as (Hwfd&Hr&Ha&Hl).
  set (wd := with_timers (<[k := None]> (timers w1)) w1) in *.
  assert (w2 = wd) as Hw2.
  { unfold w2, expire. rewrite Hk. fold wd.
    destruct (runs wd !! r) as [run|] eqn:Hrun; [|done].
    change (runs wd) with (runs w1) in Hrun.
    assert (count run = cnt r w1) as Hc by (unfold cnt; by rewrite Hrun).
    unfold credit in C1. destruct (Z.gtb_spec (count run) 0); [lia|done]. }
  split_and!; try by rewrite Hw2.
  pose proof (exec_timers env after wd r Hwfd Hr) as H.
  unfold w3. rewrite Hw2. lia.
Qed.

Lemma no_diagnostic_when_all_completed_witness :
  wf (likeOnly page) /\
  timers (exec laterEnv (parse laterEnv None (Some 7%nat) (likeOnly page))
            [Render 0%nat; Render 1%nat]) !! 0%nat = Some (Some 0%nat) /\
  2 <= signals 0 (exec laterEnv (parse laterEnv None (Some 7%nat) (likeOnly page))
                    [Render 0%nat; Render 1%nat]) /\
  occurrences (isLog 0)
    (exec laterEnv
       (expire 0 (exec laterEnv (parse laterEnv None (Some 7%nat) (likeOnly page))
                    [Render 0%nat; Render 1%nat]))
       [Expire 0%nat; Render 0%nat]) = 0%nat.
Proof.
  assert (wf (likeOnly page)) as Hwf by by apply wf_fresh.
  assert (timers (exec laterEnv (parse laterEnv None (Some 7%nat) (likeOnly page))
            [Render 0%nat; Render 1%nat]) !! 0%nat = Some (Some 0%nat)) as Hk by reflexivity.
  assert (2 <= signals 0 (exec laterEnv (parse laterEnv None (Some 7%nat) (likeOnly page))
                    [Render 0%nat; Render 1%nat])) as Hle by (vm_compute; discriminate).
  split_and!; [exact Hwf|exact Hk|exact Hle|].
  apply (no_diagnostic_when_all_completed laterEnv None (Some 7%nat) (likeOnly page)
           [Render 0%nat; Render 1%nat] [Expire 0%nat; Render 0%nat] 0%nat Hwf Hk Hle).
Defined.

(** ** The registry and the scanner *)

Lemma defaultXmlns_set ti : noXmlns (defaultXmlns ti) = false.
Proof. unfold defaultXmlns. by destruct (noXmlns ti) eqn:H. Qed.

Lemma defaultXmlns_idem ti : defaultXmlns (defaultXmlns ti) = defaultXmlns ti.
Proof. unfold defaultXmlns at 1. by rewrite defaultXmlns_set. Qed.

Lemma found_default d dom ti : found d dom (defaultXmlns ti) = found d dom ti.
Proof. unfold found. by rewrite defaultXmlns_idem. Qed.

(** The loop over a part of the registry: the descriptors before and
    after that part stay as they are, and one bind is issued for every
    element the descriptors of the part find. *)
Lemma scan_part env dom r rest tail : forall done w,
  _tagInfos w = done ++ rest ++ tail -> wf w -> (r < length (runs w))%nat ->
  let w' := fold_left (fun w' i => eachTagInfo env dom r i w')
              (seq (length done) (length rest)) w in
  Scans w w' /\
  _tagInfos w' = done ++ map defaultXmlns rest ++ tail /\
  issued r w' =
    issued r w + Z.of_nat (length (flat_map (found (document w) dom) rest)).
Proof.
  induction rest as [|ti rest IH]; intros done w Hti Hwf Hr; simpl.
  - split_and!; [reflexivity|done|lia].
  - destruct (eachTagInfo_at env dom r done ti (rest ++ tail) w Hti Hwf Hr)
      as (HS & Hti1 & _ & HB).
    set (w1 := eachTagInfo env dom r (length done) w) in *.
    assert (r < length (runs w1))%nat as Hr1.
    { by rewrite (Still_length _ _ (scans_still _ _ HS)). }
    specialize (IH (done ++ [defaultXmlns ti]) w1 Hti1 (scans_wf _ _ HS Hwf) Hr1).
    rewrite length_app, Nat.add_1_r in IH. simpl in IH.
    destruct IH as (HS' & Hti' & Hi').
    rewrite (still_document _ _ (scans_still _ _ HS)) in Hi'.
    split_and!.
    + by etrans.
    + by rewrite Hti', <- app_assoc.
    + rewrite Hi', (binds_issued _ _ _ _ HB), length_app. lia.
Qed.

(** X11. A descriptor (with its [localName] and [className]) given to
    [registerTag] is put at the end of the registry, and the next
    [parse] comes to it last: when the loop over the registry has dealt
    with all the earlier descriptors, one bind has been issued for every
    element they find and the new descriptor is still as it was given;
    then its [xmlns] is defaulted in the registry and the elements it
    finds are bound, in the order of the collection, also when it repeats
    an earlier descriptor.  That is the end of the scan. *)
Theorem registered_tag_is_scanned_by_the_next_parse env dom cb ti w :
  wf w ->
  let w1 := registerTag ti w in
  let r := length (runs w) in
  let root := rootOf dom w in
  let earlier :=
    fold_left (fun w' i => eachTagInfo env root r i w')
      (seq 0 (length (_tagInfos w))) (newRun cb w1) in
  _tagInfos w1 = _tagInfos w ++ [ti] /\
  issued r earlier = Z.of_nat (length (matches w root)) /\
  _tagInfos earlier = map defaultXmlns (_tagInfos w) ++ [ti] /\
  parse_scan env dom cb w1 =
    bindAll env (defaultXmlns ti) r (found (document w) root ti)
      (with_tagInfos (map defaultXmlns (_tagInfos w) ++ [defaultXmlns ti]) earlier) /\
  issued r (parse env dom cb w1) =
    Z.of_nat (length (matches w root)) +
    Z.of_nat (length (found (document w) root ti)) /\
  _tagInfos (parse env dom cb w1) = map defaultXmlns (_tagInfos w) ++ [defaultXmlns ti].
Proof.
  intros Hwf w1 r root earlier.
  assert (matches w1 (rootOf dom w1) = matches w root ++ found (document w) root ti) as Hm.
  { unfold matches, w1. simpl. rewrite flat_map_app. simpl. by rewrite app_nil_r. }
  assert (wf w1) as Hwf1 by by apply (registerTag_steps ti w).
  destruct (parse_spec env dom cb w1 Hwf1) as (_&_&Hti&_&_&_&Hi&_).
  set (w0 := newRun cb w1) in *.
  assert (wf w0) as Hwf0 by by apply (newRun_steps cb w1).
  assert (r < length (runs w0))%nat as Hr0.
  { unfold w0. simpl. rewrite length_app. simpl. lia. }
  pose proof (scan_part env root r (_tagInfos w) [ti] [] w0 eq_refl Hwf0 Hr0) as H.
  cbv zeta in H. change (length (@nil TagInfo)) with 0%nat in H. fold earlier in H.
  destruct H as (HS & Hte & Hie). simpl in Hte.
  destruct (newRun_self cb w1 Hwf1) as (_ & Hi0 & _).
  change (length (runs w1)) with r in Hi0. fold w0 in Hi0.
  split_and!.
  - done.
  - rewrite Hie, Hi0. done.
  - done.
  - unfold parse_scan, scan. change (rootOf dom w1) with root.
    change (length (runs w1)) with r. fold w0.
    change (_tagInfos w0) with (_tagInfos w ++ [ti]).
    rewrite length_app, seq_app, fold_left_app. simpl. fold earlier.
    unfold eachTagInfo. rewrite Hte.
    rewrite list_lookup_middle by by rewrite length_map.
    rewrite insert_app_r_alt by (rewrite length_map; lia).
    rewrite length_map, Nat.sub_diag. simpl.
    by rewrite (still_document _ _ (scans_still _ _ HS)).
  - change (length (runs w1)) with r in Hi. rewrite Hi, Hm, length_app. lia.
  - rewrite Hti. unfold w1. simpl. by rewrite map_app.
Qed.

Lemma registered_tag_is_scanned_by_the_next_parse_witness :
  wf (init page) /\
  issued 0 (parse laterEnv None None
              (registerTag {| xmlns := Some ""; localName := "like";
                              className := "FB.XFBML.Like" |} (init page))) = 4.
Proof.
  assert (wf (init page)) as Hwf by by apply wf_fresh.
  split; [exact Hwf|].
  destruct (registered_tag_is_scanned_by_the_next_parse laterEnv None None
              {| xmlns := Some ""; localName := "like"; className := "FB.XFBML.Like" |}
              (init page) Hwf) as (_&_&_&_&H&_).
  refine (eq_trans H _). vm_compute. reflexivity.
Defined.

(** X12. After one [parse] no descriptor of the registry is without
    [xmlns]; a further [parse] leaves the registry as it is; and the
    defaulting does not change which elements a scan finds. *)
Theorem registry_settles_after_the_first_parse env dom cb env' dom' cb' w :
  wf w ->
  let w1 := parse env dom cb w in
  Forall (fun ti => noXmlns ti = false) (_tagInfos w1) /\
  _tagInfos (parse env' dom' cb' w1) = _tagInfos w1 /\
  forall root, matches w1 root = matches w root.
Proof.
  intros Hwf w1.
  destruct (parse_spec env dom cb w Hwf) as ([Hwf1 _]&_&Hti&Hd&_). fold w1 in Hwf1, Hti, Hd.
  destruct (parse_spec env' dom' cb' w1 (Hwf1 Hwf)) as (_&_&Hti'&_).
  split_and!.
  - rewrite Hti. apply Forall_forall. intros ti Hin.
    apply list_elem_of_In, in_map_iff in Hin as (x & <- & _). apply defaultXmlns_set.
  - rewrite Hti', Hti, map_map. apply map_ext. intros ti. apply defaultXmlns_idem.
  - intros root. unfold matches. rewrite Hti, Hd. clear.
    induction (_tagInfos w) as [|ti l IH]; simpl; [done|].
    by rewrite found_default, IH.
Qed.

Lemma registry_settles_after_the_first_parse_witness :
  wf (init page) /\
  _tagInfos (parse lazyEnv None None (parse laterEnv None None (init page))) =
    _tagInfos (parse laterEnv None None (init page)).
Proof.
  assert (wf (init page)) as Hwf by by apply wf_fresh.
  split; [exact Hwf|].
  apply (registry_settles_after_the_first_parse laterEnv None None lazyEnv None None
           (init page) Hwf).
Defined.

(** X13. In Internet Explorer, where [document.namespaces] exists, the
    last statement of the file has declared ['fb']; so the scanner asks
    for an [fb] tag by its local name there, also for a descriptor
    without [xmlns].  Where [document.namespaces] is missing it asks for
    the name with the prefix. *)
Theorem ie_scans_fb_by_local_name d dom ti :
  browserType d = "ie" ->
  xmlnsOf (defaultXmlns ti) = "fb" ->
  (is_Some (namespaces d) ->
   found (document (init d)) dom ti = getElementsByTagName dom (localName ti)) /\
  (namespaces d = None ->
   found (document (init d)) dom ti =
     getElementsByTagName dom ("fb:" +:+ localName ti)).
Proof.
  intros Hb Hx.
  assert (localName (defaultXmlns ti) = localName ti) as Hl.
  { unfold defaultXmlns. by destruct (noXmlns ti). }
  unfold found, _getDomElements. rewrite Hx, Hl. simpl. rewrite Hb. simpl. split.
  - intros [l ->]. simpl. rewrite existsb_app. simpl. by rewrite orb_true_r.
  - by intros ->.
Qed.

Lemma ie_scans_fb_by_local_name_witness :
  browserType iePage = "ie" /\
  xmlnsOf (defaultXmlns (baseTag "like" "FB.XFBML.Like")) = "fb" /\
  found (document (init iePage)) (body iePage) (baseTag "like" "FB.XFBML.Like") =
    [mkNode 11 "" "like" []].
Proof.
  split_and!; [reflexivity|reflexivity|].
  destruct (ie_scans_fb_by_local_name iePage (body iePage) (baseTag "like" "FB.XFBML.Like")
              eq_refl eq_refl) as [H _].
  refine (eq_trans (H _) _); [by eexists|]. vm_compute. reflexivity.
Defined.

Lemma localName_default ti : localName (defaultXmlns ti) = localName ti.
Proof. unfold defaultXmlns. by destruct (noXmlns ti). Qed.

(** What the scanner returns for a descriptor are elements below the
    root that bear the name it asks for, as the browser compares it. *)
Lemma found_in d dom ti n :
  In n (found d dom ti) ->
  In n (descendants dom) /\
  (queryName d ti = "*" \/ tagName n = asCompared d n (queryName d ti)).
Proof.
  unfold found, queryName, asCompared, _getDomElements, getElementsByTagName,
    getElementsByTagNameNS.
  rewrite localName_default.
  assert (forall q, nameMatches q n = true ->
            q = "*" \/
            tagName n = if String.eqb (namespaceURI n) xhtml then toLowerCase q else q)
    as Hname.
  { intros q H. unfold nameMatches in H. apply orb_true_iff in H as [H|H];
      apply String.eqb_eq in H; auto. }
  assert (forall q, localNameMatches q n = true -> q = "*" \/ tagName n = q) as Hlocal.
  { intros q H. unfold localNameMatches in H. apply orb_true_iff in H as [H|H];
      apply String.eqb_eq in H; auto. }
  destruct (String.eqb (browserType d) "mozilla").
  - intros H. apply filter_In in H as [H1 H2]. apply andb_true_iff in H2 as [_ H2]. auto.
  - destruct (String.eqb (browserType d) "ie"); [destruct (namespaces d) as [l|];
      [destruct (existsb _ l)|]|];
      intros H; apply filter_In in H as [H1 H2]; auto.
Qed.

Lemma asCompared_lower d n q q' :
  asCompared d n q = asCompared d n q' -> toLowerCase q = toLowerCase q'.
Proof.
  unfold asCompared.
  destruct (String.eqb (browserType d) "mozilla"); [congruence|].
  destruct (String.eqb (namespaceURI n) xhtml); congruence.
Qed.

Lemma found_NoDup d dom ti :
  NoDup (map nid (descendants dom)) -> NoDup (map nid (found d dom ti)).
Proof.
  assert (forall (p : Node -> bool) l,
            NoDup (map nid l) -> NoDup (map nid (List.filter p l))) as Hfilter.
  { intros p l. induction l as [|x l IH]; simpl; [done|].
    intros H. apply NoDup_cons in H as [Hx Hl]. destruct (p x); simpl; [|auto].
    apply NoDup_cons. split; [|auto].
    intros Hin. apply Hx. apply list_elem_of_In, in_map_iff in Hin as (y & Hy & Hin).
    apply list_elem_of_In, in_map_iff. exists y. split; [done|].
    by apply filter_In in Hin as [? _]. }
  unfold found, _getDomElements, getElementsByTagName, getElementsByTagNameNS.
  destruct (String.eqb (browserType d) "mozilla"); [by apply Hfilter|].
  destruct (String.eqb (browserType d) "ie"); [destruct (namespaces d) as [l|];
    [destruct (existsb _ l)|]|]; by apply Hfilter.
Qed.

Lemma nid_injective_on (l : list Node) x y :
  NoDup (map nid l) -> In x l -> In y l -> nid x = nid y -> x = y.
Proof.
  induction l as [|z l IH]; simpl; [done|].
  intros H. apply NoDup_cons in H as [Hz Hl].
  intros [->|Hx] [->|Hy] Heq; auto.
  - exfalso. apply Hz, list_elem_of_In, in_map_iff. by exists y.
  - exfalso. apply Hz, list_elem_of_In, in_map_iff. by exists x.
Qed.

(** X14. When the elements below the root are distinct objects and the
    descriptors of the registry ask the browser for names that are
    distinct also when put in lower case, none of them ["*"], no element
    is found twice by one [parse]: every element is bound at most once in
    a pass. *)
Theorem no_element_is_found_twice w dom :
  NoDup (map nid (descendants dom)) ->
  NoDup (map (fun ti => toLowerCase (queryName (document w) ti)) (_tagInfos w)) ->
  ~ In "*" (map (queryName (document w)) (_tagInfos w)) ->
  NoDup (map nid (matches w dom)).
Proof.
  intros Hd. unfold matches. generalize (document w). intros d.
  induction (_tagInfos w) as [|ti l IH]; simpl; intros Hq Hstar; [constructor|].
  apply NoDup_cons in Hq as [Hti Hl].
  rewrite map_app. apply NoDup_app. split_and!.
  - by apply found_NoDup.
  - intros i Hi Hi'.
    apply list_elem_of_In, in_map_iff in Hi as (n & <- & Hn).
    apply list_elem_of_In, in_map_iff in Hi' as (m & Hnm & Hm).
    apply in_flat_map in Hm as (tj & Htj & Hm).
    apply found_in in Hn as [Hn1 Hn2]. apply found_in in Hm as [Hm1 Hm2].
    assert (m = n) as -> by by apply (nid_injective_on (descendants dom)).
    assert (queryName d ti <> "*") as H1 by (intros E; apply Hstar; by left).
    assert (queryName d tj <> "*") as H2.
    { intros E. apply Hstar. right. apply in_map_iff. by exists tj. }
    destruct Hn2 as [|Hn2]; [done|]. destruct Hm2 as [|Hm2]; [done|].
    apply Hti, list_elem_of_In, in_map_iff. exists tj. split; [|done].
    apply (asCompared_lower d n). congruence.
  - apply IH; [done|]. intros H. apply Hstar. by right.
Qed.

Lemma no_element_is_found_twice_witness :
  NoDup (map nid (descendants (body page))) /\
  NoDup (map (fun ti => toLowerCase (queryName (document (init page)) ti))
           (_tagInfos (init page))) /\
  ~ In "*" (map (queryName (document (init page))) (_tagInfos (init page))) /\
  NoDup (map nid (matches (init page) (body page))).
Proof.
  assert (NoDup (map nid (descendants (body page)))) as H1.
  { apply (bool_decide_unpack _). vm_compute. exact I. }
  assert (NoDup (map (fun ti => toLowerCase (queryName (document (init page)) ti))
                   (_tagInfos (init page)))) as H2.
  { apply (bool_decide_unpack _). vm_compute. exact I. }
  assert (~ In "*" (map (queryName (document (init page))) (_tagInfos (init page)))) as H3.
  { vm_compute. intros H. repeat destruct H as [H|H]; done. }
  split_and!; [exact H1|exact H2|exact H3|].
  apply (no_element_is_found_twice (init page) (body page) H1 H2 H3).
Defined.

(** Names that differ in case only are the same name to the browser: with
    a descriptor for ['like'] and one for ['LIKE'] every [fb:like]
    element is found, and bound, twice in one pass. *)
Lemma names_that_differ_in_case_find_the_same_elements :
  let w := with_tagInfos [baseTag "like" "FB.XFBML.Like"; baseTag "LIKE" "FB.XFBML.Like"]
             (init page) in
  map (queryName (document w)) (_tagInfos w) = ["fb:like"; "fb:LIKE"] /\
  map nid (matches w (body page)) = [11; 12; 11; 12]%nat /\
  issued 0 (parse laterEnv None None w) = 4.
Proof. vm_compute. done. Qed.

(** ** [set] *)

Lemma setChildren_namespaceURI target ks n :
  namespaceURI (setChildren target ks n) = namespaceURI n.
Proof. destruct n as [i ns t old]. simpl. by destruct (Nat.eqb i target). Qed.

(** X15. [set] binds what the markup holds and nothing of what the
    element held before: the binds it issues are those of a scan of the
    element with the parsed markup as its children, with the registry of
    the page. *)
Theorem set_binds_the_new_content_only env i ns t old markup cb w :
  wf w ->
  let r := length (runs w) in
  let w' := set env (mkNode i ns t old) markup cb w in
  issued r w' =
    Z.of_nat (length (matches w (mkNode i ns t (parseMarkup env markup)))) /\
  cnt r w' + signals r w' =
    Z.of_nat (length (matches w (mkNode i ns t (parseMarkup env markup)))).
Proof.
  intros Hwf r w'. unfold w', set. simpl nid.
  set (w1 := with_document _ w).
  assert (wf w1) as Hwf1 by by apply (with_document_steps _ w).
  destruct (parse_spec env (Some (setChildren i (parseMarkup env markup) (mkNode i ns t old)))
              cb w1 Hwf1) as (_&_&_&_&_&Hc&Hi&_).
  change (length (runs w1)) with r in Hc, Hi.
  assert (setChildren i (parseMarkup env markup) (mkNode i ns t old) =
          mkNode i ns t (parseMarkup env markup)) as Hdom.
  { simpl. by rewrite Nat.eqb_refl. }
  rewrite Hdom in Hc, Hi. simpl rootOf in Hc, Hi.
  assert (matches w1 (mkNode i ns t (parseMarkup env markup)) =
          matches w (mkNode i ns t (parseMarkup env markup))) as Hm.
  { unfold matches, found, _getDomElements, w1. simpl.
    by rewrite setChildren_namespaceURI. }
  rewrite Hm in Hc, Hi. rewrite Hdom. split; [exact Hi|exact Hc].
Qed.

Lemma set_binds_the_new_content_only_witness :
  wf (init page) /\
  issued 0 (set markupEnv container "<fb:name uid=4></fb:name>" None (init page)) = 1.
Proof.
  assert (wf (init page)) as Hwf by by apply wf_fresh.
  split; [exact Hwf|].
  destruct (set_binds_the_new_content_only markupEnv 10 xhtml "div" [likeA; other; likeB]
              "<fb:name uid=4></fb:name>" None (init page) Hwf) as [H _].
  refine (eq_trans H _). vm_compute. reflexivity.
Defined.
